(** * koa-session (src/index.js): setup, options and the per-request middleware

    A shallow embedding of [src/index.js]: the exported setup function
    ([module.exports]), [formatOpts], [extendContext] and the returned
    [session] middleware.  JavaScript values are modelled by [jsval];
    objects are association lists of their own enumerable fields; the
    context prototype [app.context] is a table of property descriptors. *)

From stdpp Require Import base gmap strings list.
From Stdlib Require Import String ZArith.
Open Scope string_scope.
#[local] Set Warnings "-register-all".

(* ------------------------------------------------------------------ *)
(** ** JavaScript values *)

(** Function values are named by what they are: a caller's own function,
    the [uuid/v4] generator, the closure that [formatOpts] builds for a
    prefix, or the default codec of [lib/util]. *)
Inductive fnv :=
| FnUser (n : nat)
| FnUuid
| FnPrefixUuid
| FnUtilEncode
| FnUtilDecode.

Inductive jsval :=
| JUndef
| JNull
| JBool (b : bool)
| JNum (z : Z)
| JStr (s : string)
| JObj (fields : list (string * jsval))
| JFun (f : fnv)
| JClass (proto : list (string * jsval))  (** [class] with its prototype *)
| JCtxRef (n : nat)                       (** reference to a context prototype *)
| JCsRef (n : nat).                       (** reference to a [ContextSession] *)

(** JavaScript truthiness ([NaN] is not modelled). *)
Definition truthy (v : jsval) : bool :=
  match v with
  | JUndef | JNull => false
  | JBool b => b
  | JNum z => negb (Z.eqb z 0)
  | JStr s => negb (String.eqb s "")
  | _ => true
  end.

(** [v == null] *)
Definition loose_null (v : jsval) : bool :=
  match v with JUndef | JNull => true | _ => false end.

(** [typeof v === 'function'] (a class is a function too); this is also
    [is.function] of [is-type-of]. *)
Definition is_function (v : jsval) : bool :=
  match v with JFun _ | JClass _ => true | _ => false end.

(** [is.class] of [is-type-of]. *)
Definition is_class (v : jsval) : bool :=
  match v with JClass _ => true | _ => false end.

Fixpoint assoc (k : string) (l : list (string * jsval)) : option jsval :=
  match l with
  | [] => None
  | (k', v) :: l' => if String.eqb k k' then Some v else assoc k l'
  end.

(** Property read [v.k]. *)
Definition get_field (v : jsval) (k : string) : jsval :=
  match v with
  | JObj fs => match assoc k fs with Some x => x | None => JUndef end
  | JClass p => if String.eqb k "prototype" then JObj p else JUndef
  | _ => JUndef
  end.

(** [k in v] for a plain object. *)
Definition has_field (v : jsval) (k : string) : bool :=
  match v with
  | JObj fs => match assoc k fs with Some _ => true | None => false end
  | _ => false
  end.

Fixpoint set_assoc (k : string) (x : jsval) (l : list (string * jsval))
  : list (string * jsval) :=
  match l with
  | [] => [(k, x)]
  | (k', v) :: l' =>
      if String.eqb k k' then (k', x) :: l' else (k', v) :: set_assoc k x l'
  end.

(** Exceptions that can leave the code. *)
Inductive exn :=
| TypeError (msg : string)
| AssertionError (msg : string)
| JsError (msg : string)  (** [new Error(msg)] *)
| ErrOf (n : nat).     (** an error thrown by a caller's handler or backend *)

Inductive outcome (A : Type) :=
| Ok (a : A)
| Thrown (e : exn).
Arguments Ok {A} a.
Arguments Thrown {A} e.

(** Property write [v.k = x] in strict mode: a plain object gets the
    field; assigning to a primitive throws. *)
Definition set_field (v : jsval) (k : string) (x : jsval) : outcome jsval :=
  match v with
  | JObj fs => Ok (JObj (set_assoc k x fs))
  | _ => Thrown (TypeError "Cannot create property on primitive")
  end.

Definition obind {A B} (m : outcome A) (f : A -> outcome B) : outcome B :=
  match m with Ok a => f a | Thrown e => Thrown e end.

Notation "x <-? m ; k" := (obind m (fun x => k))
  (at level 60, m at next level, right associativity).

(** [assert(c, msg)] of node's [assert] module. *)
Definition js_assert (c : bool) (msg : string) : outcome unit :=
  if c then Ok tt else Thrown (AssertionError msg).

(* ------------------------------------------------------------------ *)
(** ** [formatOpts] (src/index.js, lines 61-113) *)

Definition formatOpts (opts0 : jsval) : outcome jsval :=
  (* opts = opts || {} *)
  let opts := if truthy opts0 then opts0 else JObj [] in
  (* opts.key = opts.key || 'koa:sess' *)
  opts <-? set_field opts "key"
            (let k := get_field opts "key" in
             if truthy k then k else JStr "koa:sess") ;
  (* if (!('maxAge' in opts)) opts.maxAge = opts.maxage *)
  opts <-? (if has_field opts "maxAge" then Ok opts
            else set_field opts "maxAge" (get_field opts "maxage")) ;
  opts <-? (if loose_null (get_field opts "overwrite")
            then set_field opts "overwrite" (JBool true) else Ok opts) ;
  opts <-? (if loose_null (get_field opts "httpOnly")
            then set_field opts "httpOnly" (JBool true) else Ok opts) ;
  opts <-? (if loose_null (get_field opts "signed")
            then set_field opts "signed" (JBool true) else Ok opts) ;
  opts <-? (if loose_null (get_field opts "autoCommit")
            then set_field opts "autoCommit" (JBool true) else Ok opts) ;
  opts <-? (if is_function (get_field opts "encode") then Ok opts
            else set_field opts "encode" (JFun FnUtilEncode)) ;
  opts <-? (if is_function (get_field opts "decode") then Ok opts
            else set_field opts "decode" (JFun FnUtilDecode)) ;
  let store := get_field opts "store" in
  _ <-? (if truthy store then
           _ <-? js_assert (is_function (get_field store "get")) "store.get must be function" ;
           _ <-? js_assert (is_function (get_field store "set")) "store.set must be function" ;
           js_assert (is_function (get_field store "destroy")) "store.destroy must be function"
         else Ok tt) ;
  let externalKey := get_field opts "externalKey" in
  _ <-? (if truthy externalKey then
           _ <-? js_assert (is_function (get_field externalKey "get")) "externalKey.get must be function" ;
           js_assert (is_function (get_field externalKey "set")) "externalKey.set must be function"
         else Ok tt) ;
  let ContextStore := get_field opts "ContextStore" in
  _ <-? (if truthy ContextStore then
           let proto := get_field ContextStore "prototype" in
           _ <-? js_assert (is_class ContextStore) "ContextStore must be a class" ;
           _ <-? js_assert (is_function (get_field proto "get")) "ContextStore.prototype.get must be function" ;
           _ <-? js_assert (is_function (get_field proto "set")) "ContextStore.prototype.set must be function" ;
           js_assert (is_function (get_field proto "destroy")) "ContextStore.prototype.destroy must be function"
         else Ok tt) ;
  (* if (!opts.genid) { prefix ? closure : uuid } *)
  if truthy (get_field opts "genid") then Ok opts
  else if truthy (get_field opts "prefix")
  then set_field opts "genid" (JFun FnPrefixUuid)
  else set_field opts "genid" (JFun FnUuid).

(** String conversion used by the template literal [`${opts.prefix}...`]
    (numbers are not rendered; only strings matter to the code). *)
Definition js_to_string (v : jsval) : string :=
  match v with
  | JStr s => s
  | JUndef => "undefined"
  | JNull => "null"
  | JBool true => "true"
  | JBool false => "false"
  | JNum _ => "<number>"
  | JFun _ | JClass _ => "<function>"
  | JObj _ | JCtxRef _ | JCsRef _ => "[object Object]"
  end.

(** Calling [opts.genid()] when the value [uuid()] returns is [u].  The
    prefix closure reads [opts.prefix] from the options object at call
    time.  A caller's own function is not interpreted ([None]). *)
Definition call_genid (opts : jsval) (u : string) : option string :=
  match get_field opts "genid" with
  | JFun FnUuid => Some u
  | JFun FnPrefixUuid => Some (String.append (js_to_string (get_field opts "prefix")) u)
  | _ => None
  end.

(* ------------------------------------------------------------------ *)
(** ** The context prototype and [extendContext] (lines 124-156) *)

(** Property keys of a context: the two symbols of the module and names. *)
Inductive propkey :=
| KCtxSession        (** [CONTEXT_SESSION] *)
| KCtxSessionPriv    (** [_CONTEXT_SESSION] *)
| KName (s : string).

#[global] Instance propkey_eq_dec : EqDecision propkey.
Proof. solve_decision. Defined.

(** The accessor functions [extendContext] installs.  The getter of
    [CONTEXT_SESSION] closes over the [opts] of its installation. *)
Inductive getter :=
| GCtxSession (opts : jsval)
| GSession
| GSessionOptions.

Inductive setter :=
| SSession.

(** A property as the prototype holds it ([enumerable] is not modelled). *)
Inductive descriptor :=
| DData (v : jsval) (configurable : bool)
| DAccessor (get : option getter) (set : option setter) (configurable : bool).

Definition proto_table := list (propkey * descriptor).

Fixpoint lookup_prop (k : propkey) (p : proto_table) : option descriptor :=
  match p with
  | [] => None
  | (k', d) :: p' => if decide (k = k') then Some d else lookup_prop k p'
  end.

(** [context.hasOwnProperty(k)] *)
Definition has_own (p : proto_table) (k : propkey) : bool :=
  match lookup_prop k p with Some _ => true | None => false end.

Definition desc_configurable (d : descriptor) : bool :=
  match d with DData _ c => c | DAccessor _ _ c => c end.

Fixpoint replace_prop (k : propkey) (d : descriptor) (p : proto_table) : proto_table :=
  match p with
  | [] => []
  | (k', d') :: p' => if decide (k = k') then (k', d) :: p' else (k', d') :: replace_prop k d p'
  end.

(** An accessor descriptor as the code passes it to [Object.defineProperty]:
    [get] is always given; [None] marks an absent [set] or [configurable]. *)
Record prop_def := {
  pd_get : getter;
  pd_set : option setter;
  pd_configurable : option bool
}.

Definition desc_setter (d : descriptor) : option setter :=
  match d with DData _ _ => None | DAccessor _ s _ => s end.

(** The property that [ValidateAndApplyPropertyDescriptor] leaves when the
    accessor descriptor [d] is applied to the current property [cur] (none,
    or a configurable one): the given fields are taken, an absent [set] or
    [configurable] keeps the current one, and a new property gets no
    setter and [configurable: false]. *)
Definition merge_desc (cur : option descriptor) (d : prop_def) : descriptor :=
  DAccessor (Some (pd_get d))
    (match pd_set d with
     | Some st => Some st
     | None => match cur with Some d0 => desc_setter d0 | None => None end
     end)
    (match pd_configurable d with
     | Some b => b
     | None => match cur with Some d0 => desc_configurable d0 | None => false end
     end).

(** [Object.defineProperty] with an accessor descriptor: a new key is
    added, a configurable one is updated as above, a non-configurable one
    refuses with a [TypeError] (the getters the code passes are fresh
    closures, never the same as a current one). *)
Definition define_prop (p : proto_table) (k : propkey) (d : prop_def)
  : outcome proto_table :=
  match lookup_prop k p with
  | None => Ok ((p ++ [(k, merge_desc None d)])%list)
  | Some d0 =>
      if desc_configurable d0 then Ok (replace_prop k (merge_desc (Some d0) d) p)
      else Thrown (TypeError "Cannot redefine property")
  end.

(** [Object.defineProperties]: the keys are defined one after the other;
    a failure leaves the keys defined before it in place. *)
Fixpoint define_props (p : proto_table) (ds : list (propkey * prop_def))
  : outcome unit * proto_table :=
  match ds with
  | [] => (Ok tt, p)
  | (k, d) :: ds' =>
      match define_prop p k d with
      | Ok p' => define_props p' ds'
      | Thrown e => (Thrown e, p)
      end
  end.

(** The descriptors of lines 130-155, in the order [Object.defineProperties]
    visits the keys of the literal: its string keys first, then the symbol
    [CONTEXT_SESSION]. *)
Definition session_descriptors (opts : jsval) : list (propkey * prop_def) :=
  [ (KName "session",
      {| pd_get := GSession; pd_set := Some SSession; pd_configurable := Some true |});
    (KName "sessionOptions",
      {| pd_get := GSessionOptions; pd_set := None; pd_configurable := None |});
    (KCtxSession,
      {| pd_get := GCtxSession opts; pd_set := None; pd_configurable := None |}) ].

(** Context prototypes live in a heap; a [JCtxRef n] points into it. *)
Abbreviation ctx_heap := (gmap nat proto_table).

Definition extendContext (context opts : jsval) (h : ctx_heap)
  : outcome unit * ctx_heap :=
  match context with
  | JCtxRef n =>
      match h !! n with
      | Some p =>
          if has_own p KCtxSession then (Ok tt, h)
          else let '(r, p') := define_props p (session_descriptors opts) in
               (r, <[n := p']> h)
      | None => (Thrown (TypeError "Cannot read properties of undefined"), h)
      end
  | _ =>
      (* only context prototypes are modelled as objects with descriptors *)
      (Thrown (TypeError "Cannot read properties of undefined"), h)
  end.

(* ------------------------------------------------------------------ *)
(** ** The exported setup function (lines 24-51) *)

(** [v && typeof v.use === 'function'] *)
Definition has_use (v : jsval) : bool :=
  truthy v && is_function (get_field v "use").

(** [module.exports(opts, app)]: on success it returns the middleware,
    which is [session_mw] below applied to the formatted options, so the
    result here is those options; the context heap is threaded. *)
Definition module_exports (opts0 app0 : jsval) (h : ctx_heap)
  : outcome jsval * ctx_heap :=
  let '(app, opts) := if has_use opts0 then (opts0, app0) else (app0, opts0) in
  if negb (truthy app) || negb (is_function (get_field app "use"))
  then (Thrown (TypeError "app instance required: `session(opts, app)`"), h)
  else
    match formatOpts opts with
    | Thrown e => (Thrown e, h)
    | Ok o =>
        let '(r, h') := extendContext (get_field app "context") o h in
        (match r with Ok _ => Ok o | Thrown e => Thrown e end, h')
    end.

(* ------------------------------------------------------------------ *)
(** ** Requests: contexts, [ContextSession] objects and the world *)

(** A [ContextSession] object.  Its class lives in [lib/context.js], which
    is not part of [src/]; see [new_ContextSession]. *)
Record cs_rec := {
  cs_ctx : nat;                  (** the request context it was built for *)
  cs_opts : jsval;               (** its [opts] *)
  cs_store : bool;               (** truthiness of its [store] *)
  cs_session : option jsval;     (** the session data, [None] before loading *)
  cs_externalKey : option string (** the identifier read from outside *)
}.

(** A request context: [Object.create(app.context)] with its own
    [_CONTEXT_SESSION] slot (a reference into the object heap) and its
    other own properties. *)
Record ctx_rec := {
  cx_proto : nat;
  cx_slot : option nat;
  cx_own : list (string * jsval)
}.

Record World := {
  w_protos : ctx_heap;            (** context prototypes ([app.context]) *)
  w_ctxs : gmap nat ctx_rec;      (** live request contexts *)
  w_objs : gmap nat cs_rec;       (** [ContextSession] objects *)
  w_next : nat;                   (** next fresh object reference *)
  w_backend : gmap string jsval;  (** external store records, by identifier *)
  w_cookies : gmap nat jsval      (** session cookie of each request context *)
}.

(** Observable points of the middleware, used to state orderings. *)
Inductive event :=
| EvLoadStart | EvLoadEnd
| EvNextStart | EvNextEnd
| EvCommitStart | EvCommitEnd.

(** State, exceptions and a trace of events. *)
Definition M (A : Type) : Type := World -> outcome A * World * list event.

Definition ret {A} (a : A) : M A := fun w => (Ok a, w, []).

Definition bind {A B} (m : M A) (k : A -> M B) : M B :=
  fun w =>
    match m w with
    | (Ok a, w1, t1) => let '(r, w2, t2) := k a w1 in (r, w2, (t1 ++ t2)%list)
    | (Thrown e, w1, t1) => (Thrown e, w1, t1)
    end.

Notation "'let!' x := m 'in' k" := (bind m (fun x => k))
  (at level 200, x name, m at level 100, k at level 200).
Notation "'do!' m 'then' k" := (bind m (fun _ => k))
  (at level 200, m at level 100, k at level 200).

Definition throw {A} (e : exn) : M A := fun w => (Thrown e, w, []).

Definition gets {A} (f : World -> A) : M A := fun w => (Ok (f w), w, []).

Definition modify (f : World -> World) : M unit := fun w => (Ok tt, f w, []).

(** [try { m } catch (err) { h(err) }] *)
Definition try_catch {A} (m : M A) (h : exn -> M A) : M A :=
  fun w =>
    match m w with
    | (Thrown e, w1, t1) => let '(r, w2, t2) := h e w1 in (r, w2, (t1 ++ t2)%list)
    | x => x
    end.

(** [try { m } finally { f }]: the finally block always runs; if it
    throws, its exception replaces the outcome of [m]. *)
Definition try_finally {A} (m : M A) (f : M unit) : M A :=
  fun w =>
    let '(r, w1, t1) := m w in
    let '(rf, w2, t2) := f w1 in
    (match rf with Ok _ => r | Thrown e => Thrown e end, w2, (t1 ++ t2)%list).

(** A caller-supplied asynchronous step (downstream handler, backend write)
    seen from the middleware: it may change the world and may throw. *)
Definition Act := World -> outcome unit * World.

(** Awaiting such a step, between a start and an end event. *)
Definition prim (s e : event) (a : Act) : M unit :=
  fun w => let '(r, w') := a w in (r, w', [s; e]).

Definition set_objs (w : World) (o : gmap nat cs_rec) : World :=
  {| w_protos := w_protos w; w_ctxs := w_ctxs w; w_objs := o; w_next := w_next w;
     w_backend := w_backend w; w_cookies := w_cookies w |}.

Definition set_ctxs_objs (w : World) (cx : gmap nat ctx_rec) (o : gmap nat cs_rec)
  (n : nat) : World :=
  {| w_protos := w_protos w; w_ctxs := cx; w_objs := o; w_next := n;
     w_backend := w_backend w; w_cookies := w_cookies w |}.

(** Modelled from the spec: the constructor of [ContextSession]
    ([lib/context.js], not in [src/]).  The spec gives it the options of
    the installation and selects the external-store mode when a [store]
    (or a per-request [ContextStore]) is configured; nothing is loaded. *)
Definition new_ContextSession (c : nat) (opts : jsval) : cs_rec :=
  {| cs_ctx := c; cs_opts := opts;
     cs_store := truthy (get_field opts "ContextStore") || truthy (get_field opts "store");
     cs_session := None; cs_externalKey := None |}.

(** The getter of [CONTEXT_SESSION] (lines 132-138), [this] being the
    context [c]:
    [if (this[_CONTEXT_SESSION]) return this[_CONTEXT_SESSION];
     this[_CONTEXT_SESSION] = new ContextSession(this, opts);] *)
Definition ctx_session_get (opts : jsval) (c : nat) : M nat :=
  fun w =>
    match w_ctxs w !! c with
    | None => (Thrown (TypeError "no such context"), w, [])
    | Some cx =>
        match cx_slot cx with
        | Some r => (Ok r, w, [])
        | None =>
            let r := w_next w in
            let cx' := {| cx_proto := cx_proto cx; cx_slot := Some r; cx_own := cx_own cx |} in
            (Ok r, set_ctxs_objs w (<[c := cx']> (w_ctxs w))
                      (<[r := new_ContextSession c opts]> (w_objs w)) (S r), [])
        end
    end.

(** The descriptor a context [c] inherits for key [k]. *)
Definition proto_desc (w : World) (c : nat) (k : propkey) : option descriptor :=
  match w_ctxs w !! c with
  | Some cx => match w_protos w !! cx_proto cx with
               | Some p => lookup_prop k p
               | None => None
               end
  | None => None
  end.

(** [this[CONTEXT_SESSION]] read on the context [c]; anything but the
    installed getter leaves no [ContextSession] to use ([TypeError] at the
    following member access). *)
Definition ctx_session_ref (c : nat) : M nat :=
  fun w =>
    match proto_desc w c KCtxSession with
    | Some (DAccessor (Some (GCtxSession o)) _ _) => ctx_session_get o c w
    | _ => (Thrown (TypeError "Cannot read properties of undefined"), w, [])
    end.

Definition cs_of (r : nat) : M cs_rec :=
  fun w =>
    match w_objs w !! r with
    | Some s => (Ok s, w, [])
    | None => (Thrown (TypeError "Cannot read properties of undefined"), w, [])
    end.

Definition put_cs (r : nat) (s : cs_rec) : M unit :=
  modify (fun w => set_objs w (<[r := s]> (w_objs w))).

Definition with_session (s : cs_rec) (d : jsval) (k : option string) : cs_rec :=
  {| cs_ctx := cs_ctx s; cs_opts := cs_opts s; cs_store := cs_store s;
     cs_session := Some d; cs_externalKey := k |}.

(** Modelled from the spec: [ContextSession.prototype.initFromExternal]
    ([lib/context.js], not in [src/]).  The spec: the identifier is read
    from the cookie (a caller's [externalKey.get] is not modelled), the
    backend is asked for it; an absent identifier or record gives a fresh
    empty session; a failing backend read is treated as absent.  Loading
    writes neither the backend nor the cookie. *)
Definition load_external (r : nat) : Act :=
  fun w =>
    match w_objs w !! r with
    | None => (Thrown (TypeError "Cannot read properties of undefined"), w)
    | Some s =>
        let s' :=
          match w_cookies w !! cs_ctx s with
          | Some (JStr id) =>
              match w_backend w !! id with
              | Some d => with_session s d (Some id)
              | None => with_session s (JObj []) None
              end
          | _ => with_session s (JObj []) None
          end in
        (Ok tt, set_objs w (<[r := s']> (w_objs w)))
    end.

(** Modelled from the spec: [ContextSession.prototype.get] ([lib/context.js],
    not in [src/]).  The session is materialized on first access: in
    inline mode it is read from the cookie, otherwise (or without a
    cookie) it starts empty. *)
Definition cs_get (r : nat) : M jsval :=
  let! s := cs_of r in
  match cs_session s with
  | Some d => ret d
  | None =>
      let! ck := gets (fun w => w_cookies w !! cs_ctx s) in
      let d := match ck with
               | Some v => if cs_store s then JObj [] else v
               | None => JObj []
               end in
      do! put_cs r (with_session s d (cs_externalKey s)) then ret d
  end.

(** Modelled from the spec: [ContextSession.prototype.set] ([lib/context.js],
    not in [src/]): the session is replaced wholesale by [null] or an
    object; any other value is refused with an error. *)
Definition cs_set (r : nat) (v : jsval) : M unit :=
  let! s := cs_of r in
  match v with
  | JNull | JObj _ | JCtxRef _ | JCsRef _ => put_cs r (with_session s v (cs_externalKey s))
  | _ => throw (JsError "this.session can only be set as null or an object.")
  end.


(** Own property [k] of the context [c]. *)
Definition ctx_own (w : World) (c : nat) (k : string) : option jsval :=
  match w_ctxs w !! c with Some cx => assoc k (cx_own cx) | None => None end.

(** Reading [ctx[k]]: an own property first, then the prototype's
    descriptor, whose getter runs with [this] bound to the context. *)
Definition read_prop (c : nat) (k : string) : M jsval :=
  fun w =>
    match ctx_own w c k with
    | Some v => (Ok v, w, [])
    | None =>
        match proto_desc w c (KName k) with
        | Some (DData v _) => (Ok v, w, [])
        | Some (DAccessor (Some GSession) _ _) =>
            (* return this[CONTEXT_SESSION].get(); *)
            (let! r := ctx_session_ref c in cs_get r) w
        | Some (DAccessor (Some GSessionOptions) _ _) =>
            (* return this[CONTEXT_SESSION].opts; *)
            (let! r := ctx_session_ref c in let! s := cs_of r in ret (cs_opts s)) w
        | Some (DAccessor (Some (GCtxSession o)) _ _) =>
            (let! r := ctx_session_get o c in ret (JCsRef r)) w
        | Some (DAccessor None _ _) | None => (Ok JUndef, w, [])
        end
    end.

Definition set_own (c : nat) (k : string) (v : jsval) : M unit :=
  fun w =>
    match w_ctxs w !! c with
    | Some cx =>
        let cx' := {| cx_proto := cx_proto cx; cx_slot := cx_slot cx;
                      cx_own := set_assoc k v (cx_own cx) |} in
        (Ok tt, set_ctxs_objs w (<[c := cx']> (w_ctxs w)) (w_objs w) (w_next w), [])
    | None => (Thrown (TypeError "no such context"), w, [])
    end.

(** Assigning [ctx[k] = v] ([strict] tells whether the assigning code is
    strict-mode code): an own data property is updated; an inherited
    accessor runs its setter, and without a setter the assignment fails
    (a [TypeError] in strict code, silently otherwise); else an own data
    property is created. *)
Definition assign_prop (strict : bool) (c : nat) (k : string) (v : jsval) : M unit :=
  fun w =>
    match ctx_own w c k with
    | Some _ => set_own c k v w
    | None =>
        match proto_desc w c (KName k) with
        | Some (DAccessor _ (Some SSession) _) =>
            (* this[CONTEXT_SESSION].set(val); *)
            (let! r := ctx_session_ref c in cs_set r v) w
        | Some (DAccessor _ None _) =>
            if strict then (Thrown (TypeError "Cannot set property which has only a getter"), w, [])
            else (Ok tt, w, [])
        | Some (DData _ _) | None => set_own c k v w
        end
    end.




(* ------------------------------------------------------------------ *)
(** ** The middleware (lines 38-50) *)

Section Middleware.

(** The downstream handler chain [next] and the engine's commit of a
    [ContextSession] ([lib/context.js]) are arbitrary steps. *)
Variable next_act : Act.
Variable commit_act : nat -> Act.

Definition initFromExternal (r : nat) : M unit :=
  prim EvLoadStart EvLoadEnd (load_external r).

Definition next : M unit := prim EvNextStart EvNextEnd next_act.

Definition commit (r : nat) : M unit := prim EvCommitStart EvCommitEnd (commit_act r).

(** [async function session(ctx, next)] for the options [opts] the setup
    formatted, on the context [c]. *)
Definition session_mw (opts : jsval) (c : nat) : M unit :=
  let! sess := ctx_session_ref c in
  let! s := cs_of sess in
  do! (if cs_store s then initFromExternal sess else ret tt) then
  try_finally (try_catch next (fun err => throw err))
              (if truthy (get_field opts "autoCommit") then commit sess else ret tt).

End Middleware.

(* ================================================================== *)
(** * Properties *)

(* ------------------------------------------------------------------ *)
(** ** Field reads after [formatOpts] *)

Lemma get_field_set_assoc (fs : list (string * jsval)) (k k' : string) (x : jsval) :
  get_field (JObj (set_assoc k x fs)) k' =
  if String.eqb k' k then x else get_field (JObj fs) k'.
Proof.
  induction fs as [|[k0 v0] fs IH]; simpl.
  - destruct (String.eqb k' k); reflexivity.
  - destruct (String.eqb_spec k k0) as [->|Hne]; simpl.
    + destruct (String.eqb k' k0); reflexivity.
    + simpl in IH. destruct (String.eqb_spec k' k0) as [->|Hne'].
      * destruct (String.eqb_spec k0 k) as [->|]; [congruence | reflexivity].
      * exact IH.
Qed.

Lemma get_field_set (v v' x : jsval) (k : string) :
  set_field v k x = Ok v' ->
  forall k', get_field v' k' = if String.eqb k' k then x else get_field v k'.
Proof.
  destruct v; simpl; intros H; inversion H; subst. intros k'.
  apply get_field_set_assoc.
Qed.

Lemma get_field_default (c : bool) (v v' x : jsval) (k : string) :
  (if c then Ok v else set_field v k x) = Ok v' ->
  forall k', get_field v' k' = if String.eqb k' k && negb c then x else get_field v k'.
Proof.
  destruct c; simpl; intros H k'.
  - inversion H; subst. destruct (String.eqb k' k); reflexivity.
  - rewrite (get_field_set _ _ _ _ H k'). destruct (String.eqb k' k); reflexivity.
Qed.

Lemma get_field_default_set (c : bool) (v v' x : jsval) (k : string) :
  (if c then set_field v k x else Ok v) = Ok v' ->
  forall k', get_field v' k' = if String.eqb k' k && c then x else get_field v k'.
Proof.
  destruct c; simpl; intros H k'.
  - rewrite (get_field_set _ _ _ _ H k'). destruct (String.eqb k' k); reflexivity.
  - inversion H; subst. destruct (String.eqb k' k); reflexivity.
Qed.

Lemma get_field_or_empty (v : jsval) (k : string) :
  get_field (if truthy v then v else JObj []) k = get_field v k.
Proof. destruct v; cbn; repeat case_match; reflexivity. Qed.

Lemma js_assert_ok (c : bool) (m : string) (u : unit) : js_assert c m = Ok u -> c = true.
Proof. destruct c; simpl; congruence. Qed.

(** Splits a successful [formatOpts] run into its steps, one equation per
    step, and turns the option-writing steps into field equations. *)
Ltac split_obind H :=
  repeat match type of H with
  | obind ?m _ = Ok _ =>
      let E := fresh "E" in
      destruct m eqn:E; cbn [obind] in H; [ | discriminate H ]
  end.

Ltac field_eqs :=
  repeat match goal with
  | E : set_field _ _ _ = Ok _ |- _ =>
      let F := fresh "F" in pose proof (get_field_set _ _ _ _ E) as F; clear E
  | E : (if _ then Ok _ else set_field _ _ _) = Ok _ |- _ =>
      let F := fresh "F" in pose proof (get_field_default _ _ _ _ _ E) as F; clear E
  | E : (if _ then set_field _ _ _ else Ok _) = Ok _ |- _ =>
      let F := fresh "F" in pose proof (get_field_default_set _ _ _ _ _ E) as F; clear E
  end.

Ltac rewrite_fields :=
  repeat match goal with
  | F : forall k', get_field ?x k' = _ |- context [get_field ?x ?s] =>
      rewrite (F s); cbn [String.eqb Ascii.eqb Bool.eqb andb orb negb]
  | F : forall k', get_field ?x k' = _, H : context [get_field ?x ?s] |- _ =>
      rewrite (F s) in H; cbn [String.eqb Ascii.eqb Bool.eqb andb orb negb] in H
  end.

(** The fields [formatOpts] gives a value to, as the code computes them. *)
Lemma formatOpts_fields (opts0 o : jsval) :
  formatOpts opts0 = Ok o ->
  let g := get_field opts0 in
  get_field o "key" = (if truthy (g "key") then g "key" else JStr "koa:sess") /\
  get_field o "overwrite" = (if loose_null (g "overwrite") then JBool true else g "overwrite") /\
  get_field o "httpOnly" = (if loose_null (g "httpOnly") then JBool true else g "httpOnly") /\
  get_field o "signed" = (if loose_null (g "signed") then JBool true else g "signed") /\
  get_field o "autoCommit" = (if loose_null (g "autoCommit") then JBool true else g "autoCommit") /\
  get_field o "prefix" = g "prefix" /\
  get_field o "store" = g "store" /\
  get_field o "externalKey" = g "externalKey" /\
  get_field o "ContextStore" = g "ContextStore" /\
  get_field o "genid" =
    (if truthy (g "genid") then g "genid"
     else if truthy (g "prefix") then JFun FnPrefixUuid else JFun FnUuid).
Proof.
  unfold formatOpts. intros H. split_obind H.
  field_eqs.
  destruct (truthy (get_field _ "genid")) eqn:G1 in H.
  - inversion H; subst. rewrite_fields. simpl in *. rewrite !get_field_or_empty in *.
    rewrite G1. repeat split; reflexivity.
  - destruct (truthy (get_field _ "prefix")) eqn:G2 in H;
      pose proof (get_field_set _ _ _ _ H) as FG; rewrite_fields;
      simpl in *; rewrite !get_field_or_empty in *; rewrite ?G1, ?G2;
      repeat split; reflexivity.
Qed.

(** A supplied backend or resolver of the right shape, as the assertions
    of lines 86-105 check it; an unsupplied (falsy) one passes. *)
Definition store_ok (s : jsval) : bool :=
  negb (truthy s) ||
  (is_function (get_field s "get") && is_function (get_field s "set")
   && is_function (get_field s "destroy")).

Definition externalKey_ok (k : jsval) : bool :=
  negb (truthy k) || (is_function (get_field k "get") && is_function (get_field k "set")).

Definition ContextStore_ok (C : jsval) : bool :=
  let p := get_field C "prototype" in
  negb (truthy C) ||
  (is_class C && is_function (get_field p "get") && is_function (get_field p "set")
   && is_function (get_field p "destroy")).

Ltac assert_steps H :=
  repeat match type of H with
  | obind (js_assert ?c _) _ = Ok _ =>
      let A := fresh "A" in
      destruct (js_assert c _) eqn:A; cbn [obind] in H; [ | discriminate H ];
      apply js_assert_ok in A
  | js_assert _ _ = Ok _ => apply js_assert_ok in H
  end.

Lemma formatOpts_checks (opts0 o : jsval) :
  formatOpts opts0 = Ok o ->
  store_ok (get_field opts0 "store") = true /\
  externalKey_ok (get_field opts0 "externalKey") = true /\
  ContextStore_ok (get_field opts0 "ContextStore") = true.
Proof.
  intros H. unfold formatOpts in H. split_obind H. field_eqs. rewrite_fields.
  simpl in *. rewrite !get_field_or_empty in *.
  unfold store_ok, externalKey_ok, ContextStore_ok.
  repeat split.
  - destruct (truthy (get_field opts0 "store")); [|reflexivity].
    simpl in *. assert_steps E7. rewrite A, A0, E7. reflexivity.
  - destruct (truthy (get_field opts0 "externalKey")); [|reflexivity].
    simpl in *. assert_steps E8. rewrite A, E8. reflexivity.
  - destruct (truthy (get_field opts0 "ContextStore")); [|reflexivity].
    simpl in *. assert_steps E9. rewrite A, A0, A1, E9. reflexivity.
Qed.

(* ------------------------------------------------------------------ *)
(** ** Installing twice *)

Lemma lookup_prop_app (k : propkey) (p q : proto_table) :
  lookup_prop k (p ++ q)%list =
  match lookup_prop k p with Some d => Some d | None => lookup_prop k q end.
Proof.
  induction p as [|[k' d'] p IH]; simpl; [reflexivity|].
  destruct (decide (k = k')); [reflexivity | exact IH].
Qed.

Lemma has_own_replace (k k0 : propkey) (d : descriptor) (p : proto_table) :
  has_own (replace_prop k d p) k0 = has_own p k0.
Proof.
  unfold has_own. induction p as [|[k' d'] p IH]; simpl; [reflexivity|].
  destruct (decide (k = k')); simpl; destruct (decide (k0 = k')); auto.
Qed.

Lemma define_prop_keeps (p p' : proto_table) (k k0 : propkey) (d : prop_def) :
  define_prop p k d = Ok p' -> has_own p k0 = true -> has_own p' k0 = true.
Proof.
  unfold define_prop. intros H Hk.
  destruct (lookup_prop k p) as [d0|] eqn:L.
  - destruct (desc_configurable d0); inversion H; subst.
    rewrite has_own_replace. exact Hk.
  - inversion H; subst. unfold has_own in *. rewrite lookup_prop_app.
    destruct (lookup_prop k0 p); [reflexivity | discriminate].
Qed.

Lemma define_prop_adds (p p' : proto_table) (k : propkey) (d : prop_def) :
  define_prop p k d = Ok p' -> has_own p' k = true.
Proof.
  unfold define_prop, has_own. intros H.
  destruct (lookup_prop k p) as [d0|] eqn:L.
  - destruct (desc_configurable d0); inversion H; subst.
    pose proof (has_own_replace k k (merge_desc (Some d0) d) p) as R. unfold has_own in R.
    rewrite R, L. reflexivity.
  - inversion H; subst. rewrite lookup_prop_app, L. simpl.
    destruct (decide (k = k)); [reflexivity | congruence].
Qed.

Lemma define_props_keeps (ds : list (propkey * prop_def)) (p p' : proto_table) (k0 : propkey) :
  define_props p ds = (Ok tt, p') -> has_own p k0 = true -> has_own p' k0 = true.
Proof.
  revert p. induction ds as [|[k d] ds IH]; simpl; intros p H Hk.
  - inversion H; subst. exact Hk.
  - destruct (define_prop p k d) as [p1|e] eqn:D; [|discriminate H].
    apply (IH p1 H). eapply define_prop_keeps; eauto.
Qed.

Lemma define_props_adds (ds : list (propkey * prop_def)) (p p' : proto_table)
  (k : propkey) (d : prop_def) :
  In (k, d) ds -> define_props p ds = (Ok tt, p') -> has_own p' k = true.
Proof.
  revert p. induction ds as [|[k1 d1] ds IH]; simpl; intros p Hin; [contradiction|].
  destruct (define_prop p k1 d1) as [p1|e] eqn:D1; [|discriminate].
  intros H. destruct Hin as [Eq|Hin].
  - inversion Eq; subst. eapply define_props_keeps; [exact H|].
    eapply define_prop_adds; eauto.
  - exact (IH p1 Hin H).
Qed.

(** After a successful installation the prototype carries the slot key. *)
Lemma extendContext_marks (n : nat) (o : jsval) (h h1 : ctx_heap) :
  extendContext (JCtxRef n) o h = (Ok tt, h1) ->
  exists p1, h1 !! n = Some p1 /\ has_own p1 KCtxSession = true.
Proof.
  unfold extendContext. destruct (h !! n) as [p|] eqn:Hn; [|discriminate].
  destruct (has_own p KCtxSession) eqn:Hk.
  - intros H. inversion H; subst. eauto.
  - destruct (define_props p (session_descriptors o)) as [r p'] eqn:D.
    intros H. inversion H; subst. exists p'. split; [apply lookup_insert_eq|].
    unfold session_descriptors in D. eapply define_props_adds; [|exact D].
    simpl. right. right. left. reflexivity.
Qed.

(* ------------------------------------------------------------------ *)
(** ** Concrete inputs used by the witnesses *)

Definition example_app : jsval :=
  JObj [("use", JFun (FnUser 0)); ("context", JCtxRef 0)].

Definition example_heap : ctx_heap := {[ 0 := [] ]}.

Definition bad_store_opts : jsval :=
  JObj [("store", JObj [("get", JFun (FnUser 1)); ("set", JFun (FnUser 2))])].

(* ------------------------------------------------------------------ *)
(** ** Claims about setup *)

(** C4: a supplied [store] without [get]/[set]/[destroy] functions, an
    [externalKey] without [get]/[set] functions, or a [ContextStore] that is
    not a class or whose prototype lacks [get]/[set]/[destroy] makes
    [formatOpts] throw, and the setup throws before it installs anything. *)
Theorem formatOpts_rejects_bad_shapes (opts0 : jsval) :
  store_ok (get_field opts0 "store") = false \/
  externalKey_ok (get_field opts0 "externalKey") = false \/
  ContextStore_ok (get_field opts0 "ContextStore") = false ->
  (exists e, formatOpts opts0 = Thrown e) /\
  (forall (app : jsval) (h : ctx_heap), has_use opts0 = false ->
     exists e, module_exports opts0 app h = (Thrown e, h)).
Proof.
  intros Hbad.
  assert (T : exists e, formatOpts opts0 = Thrown e).
  { destruct (formatOpts opts0) as [o|e] eqn:E; [|eauto].
    apply formatOpts_checks in E as (S1 & S2 & S3).
    destruct Hbad as [B|[B|B]]; congruence. }
  split; [exact T|]. intros app h Hu. destruct T as [e E].
  unfold module_exports. rewrite Hu. cbn iota beta.
  destruct (negb (truthy app) || negb (is_function (get_field app "use"))); eauto.
  rewrite E. eauto.
Qed.

Lemma formatOpts_rejects_bad_shapes_witness :
  store_ok (get_field bad_store_opts "store") = false /\
  (exists e, formatOpts bad_store_opts = Thrown e) /\
  (exists e, module_exports bad_store_opts example_app example_heap = (Thrown e, example_heap)).
Proof.
  assert (B : store_ok (get_field bad_store_opts "store") = false) by reflexivity.
  destruct (formatOpts_rejects_bad_shapes bad_store_opts (or_introl B)) as [T M].
  split; [exact B | split; [exact T | apply M; reflexivity]].
Defined.

(** C5: [formatOpts] sets [key] to ["koa:sess"] when the caller's is unset
    (falsy) and keeps it otherwise; [overwrite], [httpOnly], [signed] and
    [autoCommit] become [true] when [null] or [undefined] and keep any other
    value the caller gave, [false] included. *)
Theorem formatOpts_applies_defaults (opts0 o : jsval) :
  formatOpts opts0 = Ok o ->
  get_field o "key" =
    (if truthy (get_field opts0 "key") then get_field opts0 "key" else JStr "koa:sess") /\
  (forall f, In f ["overwrite"; "httpOnly"; "signed"; "autoCommit"] ->
     get_field o f = if loose_null (get_field opts0 f) then JBool true else get_field opts0 f).
Proof.
  intros H. destruct (formatOpts_fields _ _ H) as (K & O & Hh & S & A & _).
  split; [exact K|]. intros f Hf.
  simpl in Hf. destruct Hf as [<-|[<-|[<-|[<-|[]]]]]; assumption.
Qed.

Lemma formatOpts_applies_defaults_witness :
  let opts0 := JObj [("signed", JBool false)] in
  exists o, formatOpts opts0 = Ok o /\
    get_field o "key" = JStr "koa:sess" /\
    get_field o "signed" = JBool false /\ get_field o "autoCommit" = JBool true.
Proof.
  intros opts0. eexists. split; [reflexivity|].
  match goal with |- _ /\ get_field ?o _ = _ /\ _ => set (oo := o) end.
  assert (E : formatOpts opts0 = Ok oo) by reflexivity.
  destruct (formatOpts_applies_defaults opts0 oo E) as [K F].
  split; [rewrite K; reflexivity|].
  split; [rewrite (F "signed"); simpl; auto|].
  rewrite (F "autoCommit"); simpl; auto.
Defined.

(** C6: without a (truthy) caller [genid], the generator [formatOpts]
    installs returns the value of [uuid()] when no prefix is given, and that
    value behind the prefix string when one is given; a caller's [genid] is
    kept as it is. *)
Theorem formatOpts_genid (opts0 o : jsval) :
  formatOpts opts0 = Ok o ->
  (truthy (get_field opts0 "genid") = true -> get_field o "genid" = get_field opts0 "genid") /\
  (truthy (get_field opts0 "genid") = false ->
     (forall u, get_field opts0 "prefix" = JUndef -> call_genid o u = Some u) /\
     (forall p u, get_field opts0 "prefix" = JStr p -> call_genid o u = Some (String.append p u))).
Proof.
  intros H. destruct (formatOpts_fields _ _ H) as (_&_&_&_&_&P&_&_&_&G).
  split.
  - intros T. rewrite G, T. reflexivity.
  - intros T. unfold call_genid. rewrite G, T, P. split.
    + intros u ->. reflexivity.
    + intros p u ->. simpl.
      destruct (String.eqb_spec p "") as [->|Hne]; simpl; reflexivity.
Qed.

Lemma formatOpts_genid_witness :
  let opts0 := JObj [("prefix", JStr "sess-")] in
  exists o, formatOpts opts0 = Ok o /\ call_genid o "1b9d6bcd" = Some "sess-1b9d6bcd".
Proof.
  intros opts0. eexists. split; [reflexivity|].
  match goal with |- call_genid ?o _ = _ => set (oo := o) end.
  assert (E : formatOpts opts0 = Ok oo) by reflexivity.
  destruct (formatOpts_genid opts0 oo E) as [_ G].
  exact (proj2 (G eq_refl) "sess-" "1b9d6bcd" eq_refl).
Defined.

(** C9: [session(opts, app)] and [session(app, opts)] give the same result
    (same options, same installation) when the app is the argument with a
    [use] function; when neither argument has one, the setup throws a
    [TypeError] and installs nothing. *)
Theorem module_exports_argument_order (a1 a2 : jsval) (h : ctx_heap) :
  (has_use a1 = true -> has_use a2 = false ->
     module_exports a2 a1 h = module_exports a1 a2 h) /\
  (has_use a1 = false -> has_use a2 = false ->
     module_exports a1 a2 h =
       (Thrown (TypeError "app instance required: `session(opts, app)`"), h)).
Proof.
  split.
  - intros H1 H2. unfold module_exports. rewrite H1, H2. reflexivity.
  - intros H1 H2. unfold module_exports. rewrite H1. cbn iota beta.
    unfold has_use in H2.
    destruct (truthy a2), (is_function (get_field a2 "use")); simpl in *;
      try discriminate H2; reflexivity.
Qed.

Lemma module_exports_argument_order_witness :
  let opts := JObj [("key", JStr "sid")] in
  has_use example_app = true /\ has_use opts = false /\
  module_exports opts example_app example_heap = module_exports example_app opts example_heap /\
  module_exports opts JUndef example_heap =
    (Thrown (TypeError "app instance required: `session(opts, app)`"), example_heap).
Proof.
  intros opts.
  destruct (module_exports_argument_order example_app opts example_heap) as [A _].
  destruct (module_exports_argument_order opts JUndef example_heap) as [_ B].
  split; [reflexivity|]. split; [reflexivity|].
  split; [symmetry; apply A; reflexivity|]. apply B; reflexivity.
Defined.

(** C10: when the context prototype already has the [CONTEXT_SESSION]
    slot (a second [session()] on the same app), [extendContext] returns
    and leaves every property definition as it was. *)
Theorem extendContext_skips_installed (n : nat) (p : proto_table) (o : jsval) (h : ctx_heap) :
  h !! n = Some p -> has_own p KCtxSession = true ->
  extendContext (JCtxRef n) o h = (Ok tt, h).
Proof. intros Hn Hk. simpl. rewrite Hn, Hk. reflexivity. Qed.

Lemma extendContext_skips_installed_witness :
  let o1 := JObj [("key", JStr "a")] in
  let o2 := JObj [("key", JStr "b")] in
  let h1 := snd (extendContext (JCtxRef 0) o1 example_heap) in
  let p1 := snd (define_props [] (session_descriptors o1)) in
  h1 !! 0 = Some p1 /\ has_own p1 KCtxSession = true /\
  extendContext (JCtxRef 0) o2 h1 = (Ok tt, h1).
Proof.
  intros o1 o2 h1 p1.
  assert (L : h1 !! 0 = Some p1) by (vm_compute; reflexivity).
  assert (K : has_own p1 KCtxSession = true) by (vm_compute; reflexivity).
  split; [exact L|]. split; [exact K|].
  exact (extendContext_skips_installed 0 p1 o2 h1 L K).
Defined.

(* ------------------------------------------------------------------ *)
(** ** Running the middleware *)

Lemma ctx_session_get_trace (o : jsval) (c : nat) (w : World) :
  snd (ctx_session_get o c w) = [].
Proof. unfold ctx_session_get. repeat case_match; reflexivity. Qed.

Lemma ctx_session_ref_trace (c : nat) (w : World) :
  snd (ctx_session_ref c w) = [].
Proof.
  unfold ctx_session_ref. repeat case_match; try reflexivity.
  apply ctx_session_get_trace.
Qed.

Lemma load_external_ok (r : nat) (w : World) (s : cs_rec) :
  w_objs w !! r = Some s -> fst (load_external r w) = Ok tt.
Proof. unfold load_external. intros ->. reflexivity. Qed.

(** What the middleware does once it holds the context's [ContextSession]
    [r]: load in external-store mode, run the chain, then commit if
    [autoCommit]; a throwing commit replaces the chain's outcome. *)
Lemma session_mw_eq (next_act : Act) (commit_act : nat -> Act) (opts : jsval)
  (c : nat) (w w1 : World) (r : nat) (s : cs_rec) :
  ctx_session_ref c w = (Ok r, w1, []) -> w_objs w1 !! r = Some s ->
  session_mw next_act commit_act opts c w =
    let w2 := if cs_store s then snd (load_external r w1) else w1 in
    let '(rn, w3) := next_act w2 in
    let '(rc, w4) := if truthy (get_field opts "autoCommit") then commit_act r w3
                     else (Ok tt, w3) in
    (match rc with Ok _ => rn | Thrown e => Thrown e end, w4,
     ((if cs_store s then [EvLoadStart; EvLoadEnd] else []) ++ [EvNextStart; EvNextEnd] ++
      (if truthy (get_field opts "autoCommit") then [EvCommitStart; EvCommitEnd] else []))%list).
Proof.
  intros E1 E2. unfold session_mw, bind. rewrite E1. unfold cs_of. rewrite E2. simpl.
  destruct (cs_store s).
  - unfold initFromExternal, prim.
    destruct (load_external r w1) as [lr lw] eqn:L.
    pose proof (load_external_ok r w1 s E2) as Lok. rewrite L in Lok. simpl in Lok. subst lr.
    simpl. unfold try_finally, try_catch, next, prim.
    destruct (next_act lw) as [[u|e] w3] eqn:N; simpl;
    destruct (truthy (get_field opts "autoCommit")); unfold commit, prim, ret, throw; simpl;
    try (destruct (commit_act r w3) as [[u'|e'] w4]); simpl; reflexivity.
  - unfold ret. simpl. unfold try_finally, try_catch, next, prim.
    destruct (next_act w1) as [[u|e] w3] eqn:N; simpl;
    destruct (truthy (get_field opts "autoCommit")); unfold commit, prim, ret, throw; simpl;
    try (destruct (commit_act r w3) as [[u'|e'] w4]); simpl; reflexivity.
Qed.

(** Otherwise nothing downstream runs. *)
Lemma session_mw_no_session (next_act : Act) (commit_act : nat -> Act) (opts : jsval)
  (c : nat) (w : World) :
  (forall r w1, ctx_session_ref c w = (Ok r, w1, []) -> w_objs w1 !! r = None) ->
  snd (session_mw next_act commit_act opts c w) = [].
Proof.
  intros H. unfold session_mw, bind.
  destruct (ctx_session_ref c w) as [[[r|e] w1] t1] eqn:E1;
    pose proof (ctx_session_ref_trace c w) as T; rewrite E1 in T; simpl in T; subst t1.
  - unfold cs_of. rewrite (H r w1 eq_refl). reflexivity.
  - reflexivity.
Qed.

Lemma session_mw_shape (next_act : Act) (commit_act : nat -> Act) (opts : jsval)
  (c : nat) (w : World) :
  snd (session_mw next_act commit_act opts c w) = [] \/
  exists r w1 s, ctx_session_ref c w = (Ok r, w1, []) /\ w_objs w1 !! r = Some s.
Proof.
  destruct (ctx_session_ref c w) as [[[r|e] w1] t1] eqn:E1.
  - pose proof (ctx_session_ref_trace c w) as T; rewrite E1 in T; simpl in T; subst t1.
    destruct (w_objs w1 !! r) as [s|] eqn:E2; [right; eauto|].
    left. apply session_mw_no_session. intros r' w1' E. rewrite E1 in E.
    inversion E; subst. exact E2.
  - left. apply session_mw_no_session. intros r' w1' E. rewrite E1 in E. discriminate.
Qed.

Lemma ctx_session_ref_frame (c : nat) (w : World) :
  let w1 := snd (fst (ctx_session_ref c w)) in
  w_backend w1 = w_backend w /\ w_cookies w1 = w_cookies w.
Proof.
  unfold ctx_session_ref, ctx_session_get. repeat case_match; simpl; auto.
Qed.

Lemma load_external_frame (r : nat) (w : World) :
  let w1 := snd (load_external r w) in
  w_backend w1 = w_backend w /\ w_cookies w1 = w_cookies w.
Proof. unfold load_external. repeat case_match; simpl; auto. Qed.

(** Concrete request worlds for the witnesses: the app's context
    prototype [0] extended with the given options, one request context [1]. *)
Definition opts_of (o : outcome jsval) : jsval :=
  match o with Ok v => v | Thrown _ => JUndef end.

Definition example_opts : jsval := opts_of (formatOpts JUndef).

Definition example_store_opts : jsval :=
  opts_of (formatOpts (JObj [("store", JObj [("get", JFun (FnUser 1));
                                              ("set", JFun (FnUser 2));
                                              ("destroy", JFun (FnUser 3))])])).

Definition example_world (o : jsval) : World :=
  {| w_protos := snd (extendContext (JCtxRef 0) o example_heap);
     w_ctxs := {[ 1 := {| cx_proto := 0; cx_slot := None; cx_own := [] |} ]};
     w_objs := ∅; w_next := 0;
     w_backend := {[ "sid1" := JObj [("views", JNum 1)] ]};
     w_cookies := {[ 1 := JStr "sid1" ]} |}.

Definition idle_act : Act := fun w => (Ok tt, w).
Definition idle_commit : nat -> Act := fun _ w => (Ok tt, w).
Definition failing_act (n : nat) : Act := fun w => (Thrown (ErrOf n), w).

(* ------------------------------------------------------------------ *)
(** ** Claims about the middleware *)

(** C1 (as amended): with [autoCommit] on, whenever the handler chain has
    run, the commit of the context's [ContextSession] runs right after it
    completes, normally or by a throw; the caller then sees the chain's
    outcome (its error included) if the commit completes normally, and the
    commit's error if the commit throws. *)
Theorem session_mw_commits_after_chain (next_act : Act) (commit_act : nat -> Act)
  (opts : jsval) (c : nat) (w w' : World) (res : outcome unit) (t : list event) :
  truthy (get_field opts "autoCommit") = true ->
  session_mw next_act commit_act opts c w = (res, w', t) ->
  In EvNextStart t ->
  exists r w2 w3 rn rc pre,
    next_act w2 = (rn, w3) /\ commit_act r w3 = (rc, w') /\
    t = (pre ++ [EvNextStart; EvNextEnd; EvCommitStart; EvCommitEnd])%list /\
    res = match rc with Ok _ => rn | Thrown e => Thrown e end.
Proof.
  intros A H Hin.
  destruct (session_mw_shape next_act commit_act opts c w) as [T|(r & w1 & s & E1 & E2)].
  - rewrite H in T. simpl in T. subst t. destruct Hin.
  - rewrite (session_mw_eq next_act commit_act opts c w w1 r s E1 E2), A in H.
    cbv zeta in H.
    set (w2 := if cs_store s then snd (load_external r w1) else w1) in H.
    destruct (next_act w2) as [rn w3] eqn:N.
    destruct (commit_act r w3) as [rc w4] eqn:C.
    inversion H; subst.
    exists r, w2, w3, rn, rc, (if cs_store s then [EvLoadStart; EvLoadEnd] else []).
    repeat split; auto.
Qed.

Lemma session_mw_commits_after_chain_witness :
  let w := example_world example_opts in
  let '(res, w', t) := session_mw (failing_act 1) idle_commit example_opts 1 w in
  In EvNextStart t /\ res = Thrown (ErrOf 1).
Proof.
  intros w.
  destruct (session_mw (failing_act 1) idle_commit example_opts 1 w) as [[res w'] t] eqn:E.
  assert (I : In EvNextStart t) by (vm_compute in E; inversion E; simpl; auto).
  destruct (session_mw_commits_after_chain (failing_act 1) idle_commit example_opts 1 w w' res t
              eq_refl E I) as (r & w2 & w3 & rn & rc & pre & N & C & T & R).
  split; [exact I|]. rewrite R.
  unfold idle_commit in C. inversion C; subst. unfold failing_act in N. inversion N. reflexivity.
Defined.

(** C1 as stated fails: the chain throws [ErrOf 1] and the commit throws
    [ErrOf 2]; the caller receives [ErrOf 2], not the chain's error. *)
Lemma session_mw_commits_after_chain_counterexample :
  let '(res, _, t) :=
    session_mw (failing_act 1) (fun _ => failing_act 2) example_opts 1
      (example_world example_opts) in
  In EvNextEnd t /\ In EvCommitEnd t /\
  res = Thrown (ErrOf 2) /\ res <> Thrown (ErrOf 1).
Proof. vm_compute. split; [auto 10|]. split; [auto 10|]. split; [reflexivity|]. congruence. Qed.

(** C2: with [autoCommit] off the middleware never starts a commit; when
    the handler chain writes neither the backend nor the cookies (no
    explicit commit), the request leaves both as they were. *)
Theorem session_mw_manual_commit (next_act : Act) (commit_act : nat -> Act)
  (opts : jsval) (c : nat) (w w' : World) (res : outcome unit) (t : list event) :
  truthy (get_field opts "autoCommit") = false ->
  (forall v, w_backend (snd (next_act v)) = w_backend v /\
             w_cookies (snd (next_act v)) = w_cookies v) ->
  session_mw next_act commit_act opts c w = (res, w', t) ->
  ~ In EvCommitStart t /\ w_backend w' = w_backend w /\ w_cookies w' = w_cookies w.
Proof.
  intros A Hn H.
  pose proof (ctx_session_ref_frame c w) as F1.
  destruct (ctx_session_ref c w) as [[[r|e] w1] t1] eqn:E1;
    pose proof (ctx_session_ref_trace c w) as T; rewrite E1 in T; simpl in T, F1; subst t1.
  - destruct (w_objs w1 !! r) as [s|] eqn:E2.
    + rewrite (session_mw_eq next_act commit_act opts c w w1 r s E1 E2), A in H.
      cbv zeta in H.
    set (w2 := if cs_store s then snd (load_external r w1) else w1) in H.
      assert (F2 : w_backend w2 = w_backend w /\ w_cookies w2 = w_cookies w).
      { subst w2. destruct (cs_store s); [|exact F1].
        destruct (load_external_frame r w1) as [B C]. rewrite B, C. exact F1. }
      destruct (next_act w2) as [rn w3] eqn:N.
      pose proof (Hn w2) as F3. rewrite N in F3. simpl in F3.
      inversion H; subst. split.
      * destruct (cs_store s); simpl; intuition congruence.
      * destruct F2, F3. split; congruence.
    + unfold session_mw, bind in H. rewrite E1 in H. unfold cs_of in H. rewrite E2 in H.
      inversion H; subst. simpl. tauto.
  - unfold session_mw, bind in H. rewrite E1 in H. inversion H; subst. simpl. tauto.
Qed.

Lemma session_mw_manual_commit_witness :
  let o := opts_of (formatOpts (JObj [("autoCommit", JBool false)])) in
  let w := example_world o in
  let '(res, w', t) := session_mw idle_act (fun _ _ => (Ok tt, example_world JUndef)) o 1 w in
  ~ In EvCommitStart t /\ w_backend w' = w_backend w /\ w_cookies w' = w_cookies w.
Proof.
  intros o w.
  destruct (session_mw idle_act (fun _ _ => (Ok tt, example_world JUndef)) o 1 w)
    as [[res w'] t] eqn:E.
  refine (session_mw_manual_commit idle_act _ o 1 w w' res t _ _ E).
  - vm_compute. reflexivity.
  - intros v. split; reflexivity.
Defined.

(** C7: once the handler chain has run, the events of the request are, in
    order: the backend load (only when the context's [ContextSession] has a
    store, i.e. external-store mode), the chain, and the commit (when
    [autoCommit] is on), each awaited before the next starts. *)
Theorem session_mw_load_before_chain (next_act : Act) (commit_act : nat -> Act)
  (opts : jsval) (c : nat) (w w' : World) (res : outcome unit) (t : list event) :
  session_mw next_act commit_act opts c w = (res, w', t) ->
  In EvNextStart t ->
  exists r w1 s,
    ctx_session_ref c w = (Ok r, w1, []) /\ w_objs w1 !! r = Some s /\
    t = ((if cs_store s then [EvLoadStart; EvLoadEnd] else []) ++ [EvNextStart; EvNextEnd] ++
         (if truthy (get_field opts "autoCommit") then [EvCommitStart; EvCommitEnd] else []))%list.
Proof.
  intros H Hin.
  destruct (session_mw_shape next_act commit_act opts c w) as [T|(r & w1 & s & E1 & E2)].
  - rewrite H in T. simpl in T. subst t. destruct Hin.
  - exists r, w1, s. split; [exact E1|]. split; [exact E2|].
    rewrite (session_mw_eq next_act commit_act opts c w w1 r s E1 E2) in H.
    cbv zeta in H.
    set (w2 := if cs_store s then snd (load_external r w1) else w1) in H.
    destruct (next_act w2) as [rn w3] eqn:N.
    destruct (if truthy (get_field opts "autoCommit") then commit_act r w3 else (Ok tt, w3))
      as [rc w4].
    inversion H; subst. reflexivity.
Qed.

Lemma session_mw_load_before_chain_witness :
  let w := example_world example_store_opts in
  let '(res, w', t) := session_mw idle_act idle_commit example_store_opts 1 w in
  In EvNextStart t /\
  t = [EvLoadStart; EvLoadEnd; EvNextStart; EvNextEnd; EvCommitStart; EvCommitEnd].
Proof.
  intros w.
  destruct (session_mw idle_act idle_commit example_store_opts 1 w) as [[res w'] t] eqn:E.
  assert (I : In EvNextStart t) by (vm_compute in E; inversion E; simpl; auto).
  destruct (session_mw_load_before_chain idle_act idle_commit example_store_opts 1 w w' res t E I)
    as (r & w1 & s & E1 & E2 & T).
  split; [exact I|]. rewrite T.
  vm_compute in E1. inversion E1; subst. vm_compute in E2. inversion E2; subst.
  reflexivity.
Defined.

(* ------------------------------------------------------------------ *)
(** ** The descriptors after installation *)

Lemma lookup_replace_eq (k : propkey) (d : descriptor) (p : proto_table) (d0 : descriptor) :
  lookup_prop k p = Some d0 -> lookup_prop k (replace_prop k d p) = Some d.
Proof.
  induction p as [|[k' d'] p IH]; simpl; [discriminate|].
  destruct (decide (k = k')); simpl.
  - intros _. destruct (decide (k = k')); [reflexivity | contradiction].
  - intros L. destruct (decide (k = k')); [contradiction | auto].
Qed.

Lemma lookup_replace_ne (k k0 : propkey) (d : descriptor) (p : proto_table) :
  k0 <> k -> lookup_prop k0 (replace_prop k d p) = lookup_prop k0 p.
Proof.
  intros Hne. induction p as [|[k' d'] p IH]; simpl; [reflexivity|].
  destruct (decide (k = k')) as [<-|]; simpl.
  - destruct (decide (k0 = k)); [contradiction | reflexivity].
  - destruct (decide (k0 = k')); [reflexivity | exact IH].
Qed.

Lemma define_prop_lookup_eq (p p' : proto_table) (k : propkey) (d : prop_def) :
  define_prop p k d = Ok p' -> lookup_prop k p' = Some (merge_desc (lookup_prop k p) d).
Proof.
  unfold define_prop. destruct (lookup_prop k p) as [d0|] eqn:L.
  - destruct (desc_configurable d0); intros H; inversion H; subst.
    eapply lookup_replace_eq; eauto.
  - intros H; inversion H; subst. rewrite lookup_prop_app, L. simpl.
    destruct (decide (k = k)); [reflexivity | congruence].
Qed.

Lemma define_prop_lookup_ne (p p' : proto_table) (k k0 : propkey) (d : prop_def) :
  define_prop p k d = Ok p' -> k0 <> k -> lookup_prop k0 p' = lookup_prop k0 p.
Proof.
  unfold define_prop. intros H Hne. destruct (lookup_prop k p) as [d0|] eqn:L.
  - destruct (desc_configurable d0); inversion H; subst.
    apply lookup_replace_ne; exact Hne.
  - inversion H; subst. rewrite lookup_prop_app.
    destruct (lookup_prop k0 p); [reflexivity|]. simpl.
    destruct (decide (k0 = k)); [contradiction | reflexivity].
Qed.

(** A successful installation on a prototype without [CONTEXT_SESSION] and
    without [sessionOptions] leaves exactly the getters of lines 130-155
    under these two keys. *)
Lemma extendContext_descriptors (n : nat) (o : jsval) (h h1 : ctx_heap) (p0 : proto_table) :
  h !! n = Some p0 -> has_own p0 KCtxSession = false ->
  lookup_prop (KName "sessionOptions") p0 = None ->
  extendContext (JCtxRef n) o h = (Ok tt, h1) ->
  exists p1, h1 !! n = Some p1 /\
    lookup_prop KCtxSession p1 = Some (DAccessor (Some (GCtxSession o)) None false) /\
    lookup_prop (KName "sessionOptions") p1 = Some (DAccessor (Some GSessionOptions) None false).
Proof.
  intros Hn Hk Hso. unfold extendContext. rewrite Hn, Hk.
  destruct (define_props p0 (session_descriptors o)) as [r p'] eqn:D.
  intros H. inversion H; subst. exists p'. split; [apply lookup_insert_eq|].
  unfold session_descriptors in D. simpl in D.
  destruct (define_prop p0 (KName "session") _) as [p1|e] eqn:D1; [|discriminate D].
  destruct (define_prop p1 (KName "sessionOptions") _) as [p2|e] eqn:D2; [|discriminate D].
  destruct (define_prop p2 KCtxSession _) as [p3|e] eqn:D3; [|discriminate D].
  inversion D; subst. unfold has_own in Hk.
  destruct (lookup_prop KCtxSession p0) eqn:L0; [discriminate Hk|]. split.
  - rewrite (define_prop_lookup_eq _ _ _ _ D3).
    rewrite (define_prop_lookup_ne _ _ _ _ _ D2) by discriminate.
    rewrite (define_prop_lookup_ne _ _ _ _ _ D1) by discriminate.
    rewrite L0. reflexivity.
  - rewrite (define_prop_lookup_ne _ _ _ _ _ D3) by discriminate.
    rewrite (define_prop_lookup_eq _ _ _ _ D2).
    rewrite (define_prop_lookup_ne _ _ _ _ _ D1) by discriminate.
    rewrite Hso. reflexivity.
Qed.

(** C8: on a context of an app set up with options [o] (on a prototype
    that had no [sessionOptions] of its own before), reading
    [ctx.sessionOptions] gives [o] (the options of the context's
    [ContextSession]); assigning it throws in strict code and is ignored
    otherwise, and in both cases changes nothing: the options, the
    installed getters and every [ContextSession] stay as they were. *)
Theorem sessionOptions_read_only (w : World) (c : nat) (cx : ctx_rec) (o : jsval)
  (h : ctx_heap) (p0 : proto_table) (v : jsval) (strict : bool) :
  w_ctxs w !! c = Some cx ->
  h !! cx_proto cx = Some p0 -> has_own p0 KCtxSession = false ->
  lookup_prop (KName "sessionOptions") p0 = None ->
  extendContext (JCtxRef (cx_proto cx)) o h = (Ok tt, w_protos w) ->
  ctx_own w c "sessionOptions" = None ->
  (forall r, cx_slot cx = Some r -> exists s, w_objs w !! r = Some s /\ cs_opts s = o) ->
  fst (fst (read_prop c "sessionOptions" w)) = Ok o /\
  assign_prop strict c "sessionOptions" v w =
    (if strict then Thrown (TypeError "Cannot set property which has only a getter")
     else Ok tt, w, []).
Proof.
  intros Hc Hp Hk Hso He Hown Hslot.
  destruct (extendContext_descriptors _ _ _ _ _ Hp Hk Hso He) as (p1 & Hp1 & L1 & L2).
  assert (P1 : proto_desc w c KCtxSession = Some (DAccessor (Some (GCtxSession o)) None false)).
  { unfold proto_desc. rewrite Hc, Hp1. exact L1. }
  assert (P2 : proto_desc w c (KName "sessionOptions") =
               Some (DAccessor (Some GSessionOptions) None false)).
  { unfold proto_desc. rewrite Hc, Hp1. exact L2. }
  split.
  - unfold read_prop. rewrite Hown, P2. unfold bind, ctx_session_ref. rewrite P1.
    unfold ctx_session_get. rewrite Hc.
    destruct (cx_slot cx) as [r|] eqn:Hs.
    + destruct (Hslot r eq_refl) as (s & Hr & Ho). simpl.
      unfold cs_of. rewrite Hr. simpl. rewrite Ho. reflexivity.
    + simpl. unfold cs_of. simpl. rewrite lookup_insert_eq. reflexivity.
  - unfold assign_prop. rewrite Hown, P2. destruct strict; reflexivity.
Qed.

Lemma sessionOptions_read_only_witness :
  let w := example_world example_opts in
  fst (fst (read_prop 1 "sessionOptions" w)) = Ok example_opts /\
  assign_prop true 1 "sessionOptions" (JObj []) w =
    (Thrown (TypeError "Cannot set property which has only a getter"), w, []).
Proof.
  intros w.
  refine (sessionOptions_read_only w 1 {| cx_proto := 0; cx_slot := None; cx_own := [] |}
            example_opts example_heap [] (JObj []) true _ _ _ _ _ _ _).
  - reflexivity.
  - reflexivity.
  - reflexivity.
  - reflexivity.
  - vm_compute. reflexivity.
  - reflexivity.
  - intros r Hr. discriminate Hr.
Defined.

(* ------------------------------------------------------------------ *)
(** ** One [ContextSession] per context *)

(** Every [ContextSession] is the one in its context's slot, every slot
    points to a [ContextSession] of that context, and fresh references are
    unused. *)
Definition cs_inv (w : World) : Prop :=
  (forall r s, w_objs w !! r = Some s ->
     exists cx, w_ctxs w !! cs_ctx s = Some cx /\ cx_slot cx = Some r) /\
  (forall c cx r, w_ctxs w !! c = Some cx -> cx_slot cx = Some r ->
     exists s, w_objs w !! r = Some s /\ cs_ctx s = c) /\
  (forall r, w_next w <= r -> w_objs w !! r = None).

(** Filled slots stay as they are and objects are never dropped. *)
Definition ext (w w' : World) : Prop :=
  (forall c cx r, w_ctxs w !! c = Some cx -> cx_slot cx = Some r ->
     exists cx', w_ctxs w' !! c = Some cx' /\ cx_slot cx' = Some r) /\
  (forall r s, w_objs w !! r = Some s ->
     exists s', w_objs w' !! r = Some s' /\ cs_ctx s' = cs_ctx s).

Lemma ext_refl (w : World) : ext w w.
Proof. split; eauto. Qed.


Definition good {A} (m : M A) : Prop :=
  forall w, cs_inv w -> cs_inv (snd (fst (m w))) /\ ext w (snd (fst (m w))).




Lemma good_ctx_session_get (o : jsval) (c : nat) : good (ctx_session_get o c).
Proof.
  intros w I. unfold ctx_session_get.
  destruct (w_ctxs w !! c) as [cx|] eqn:Hc; [|simpl; split; [exact I | apply ext_refl]].
  destruct (cx_slot cx) as [r0|] eqn:Hs; [simpl; split; [exact I | apply ext_refl]|].
  destruct I as (I1 & I2 & I3). simpl.
  assert (Fr : w_objs w !! w_next w = None) by (apply I3; lia).
  unfold cs_inv, ext; simpl. split; [split; [|split]|split].
  - intros r s H. rewrite lookup_insert in H. case_decide as E.
    + subst r. inversion H; subst. simpl. rewrite lookup_insert_eq. eexists; split; reflexivity.
    + destruct (I1 r s H) as (cx0 & H1 & H2).
      destruct (decide (c = cs_ctx s)) as [Ec|Ne].
      * rewrite <- Ec, Hc in H1. inversion H1; subst. congruence.
      * rewrite lookup_insert_ne by exact Ne. eauto.
  - intros c' cx' r H1 H2. rewrite lookup_insert in H1. case_decide as E.
    + subst c'. inversion H1; subst. simpl in H2. inversion H2; subst.
      rewrite lookup_insert_eq. eexists; split; reflexivity.
    + destruct (I2 c' cx' r H1 H2) as (s & H3 & H4).
      assert (Ne : w_next w <> r) by (intros <-; congruence).
      rewrite lookup_insert_ne by exact Ne. eauto.
  - intros r Hr. simpl in Hr. rewrite lookup_insert_ne by lia. apply I3. lia.
  - intros c' cx' r H1 H2. destruct (decide (c = c')) as [<-|Ne].
    + rewrite Hc in H1. inversion H1; subst. congruence.
    + rewrite lookup_insert_ne by exact Ne. eauto.
  - intros r s H. assert (Ne : w_next w <> r) by (intros <-; congruence).
    rewrite lookup_insert_ne by exact Ne. eauto.
Qed.

Lemma good_ctx_session_ref (c : nat) : good (ctx_session_ref c).
Proof.
  intros w I. unfold ctx_session_ref.
  destruct (proto_desc w c KCtxSession) as [[v b|[[o| |]|] st b]|];
    try (simpl; split; [exact I | apply ext_refl]).
  apply good_ctx_session_get. exact I.
Qed.









Lemma ctx_session_ref_slot (c : nat) (w w1 : World) (r : nat) (t : list event) :
  ctx_session_ref c w = (Ok r, w1, t) ->
  exists cx, w_ctxs w1 !! c = Some cx /\ cx_slot cx = Some r.
Proof.
  unfold ctx_session_ref.
  destruct (proto_desc w c KCtxSession) as [[v b|[[o| |]|] st b]|]; try discriminate.
  unfold ctx_session_get.
  destruct (w_ctxs w !! c) as [cx|] eqn:Hc; [|discriminate].
  destruct (cx_slot cx) as [r0|] eqn:Hs; intros H; inversion H; subst.
  - eauto.
  - simpl. rewrite lookup_insert_eq. eexists; split; reflexivity.
Qed.




(** A world before any [ContextSession] exists satisfies the invariant. *)
Lemma cs_inv_init (w : World) :
  w_objs w = ∅ -> map_Forall (fun _ cx => cx_slot cx = None) (w_ctxs w) -> cs_inv w.
Proof.
  intros O F. split; [|split].
  - intros r s H. rewrite O, lookup_empty in H. discriminate.
  - intros c cx r H1 H2. rewrite (F c cx H1) in H2. discriminate.
  - intros r _. rewrite O. apply lookup_empty.
Qed.




(* ================================================================== *)
(** * Further properties of [src/index.js] *)

(* ------------------------------------------------------------------ *)
(** ** Definitions for the properties below *)

(** The keys [formatOpts] may write (lines 63-110). *)
Definition formatOpts_written : list string :=
  ["key"; "maxAge"; "overwrite"; "httpOnly"; "signed"; "autoCommit";
   "encode"; "decode"; "genid"].

(** Values that are not objects: writing a property to them throws in
    strict mode. *)
Definition is_primitive (v : jsval) : bool :=
  match v with JUndef | JNull | JBool _ | JNum _ | JStr _ => true | _ => false end.

(* ------------------------------------------------------------------ *)
(** ** Concrete inputs used by the witnesses below *)

Definition maxage_opts : jsval := JObj [("maxage", JNum 86400000)].

Definition explicit_maxAge_opts : jsval := JObj [("maxAge", JUndef); ("maxage", JNum 5)].

Definition codec_opts : jsval := JObj [("encode", JFun (FnUser 7)); ("decode", JStr "json")].

Definition domain_opts : jsval := JObj [("domain", JStr "example.com"); ("key", JStr "sid")].

Definition prefix_opts : jsval := JObj [("prefix", JStr "sess-"); ("signed", JNull)].

Definition other_key_opts : jsval := JObj [("key", JStr "other"); ("autoCommit", JBool false)].

Definition app_without_context : jsval := JObj [("use", JFun (FnUser 0))].

Definition foreign_heap : ctx_heap :=
  {[ 0 := [(KName "sessionOptions", DData (JStr "theirs") false)] ]}.

Definition manual_opts : jsval := opts_of (formatOpts (JObj [("autoCommit", JBool false)])).

Definition bare_world : World :=
  {| w_protos := example_heap;
     w_ctxs := {[ 1 := {| cx_proto := 0; cx_slot := None; cx_own := [] |} ]};
     w_objs := ∅; w_next := 0; w_backend := ∅; w_cookies := ∅ |}.

(* ------------------------------------------------------------------ *)
(** ** Keys present after [formatOpts] *)

Lemma has_field_set_assoc (fs : list (string * jsval)) (k k' : string) (x : jsval) :
  has_field (JObj (set_assoc k x fs)) k' = String.eqb k' k || has_field (JObj fs) k'.
Proof.
  induction fs as [|[k0 v0] fs IH]; simpl.
  - destruct (String.eqb k' k); reflexivity.
  - destruct (String.eqb_spec k k0) as [->|Hne]; simpl.
    + destruct (String.eqb k' k0); reflexivity.
    + simpl in IH. destruct (String.eqb_spec k' k0) as [->|Hne'].
      * destruct (String.eqb k0 k); reflexivity.
      * exact IH.
Qed.

Lemma has_field_set (v v' x : jsval) (k : string) :
  set_field v k x = Ok v' ->
  forall k', has_field v' k' = String.eqb k' k || has_field v k'.
Proof.
  destruct v; simpl; intros H; inversion H; subst. intros k'.
  apply has_field_set_assoc.
Qed.

Lemma has_field_default (c : bool) (v v' x : jsval) (k : string) :
  (if c then Ok v else set_field v k x) = Ok v' ->
  forall k', has_field v' k' = (String.eqb k' k && negb c) || has_field v k'.
Proof.
  destruct c; simpl; intros H k'.
  - inversion H; subst. destruct (String.eqb k' k); reflexivity.
  - rewrite (has_field_set _ _ _ _ H k'). destruct (String.eqb k' k); reflexivity.
Qed.

Lemma has_field_default_set (c : bool) (v v' x : jsval) (k : string) :
  (if c then set_field v k x else Ok v) = Ok v' ->
  forall k', has_field v' k' = (String.eqb k' k && c) || has_field v k'.
Proof.
  destruct c; simpl; intros H k'.
  - rewrite (has_field_set _ _ _ _ H k'). destruct (String.eqb k' k); reflexivity.
  - inversion H; subst. destruct (String.eqb k' k); reflexivity.
Qed.

Ltac has_eqs :=
  repeat match goal with
  | E : set_field _ _ _ = Ok _ |- _ =>
      let F := fresh "F" in pose proof (has_field_set _ _ _ _ E) as F; clear E
  | E : (if _ then Ok _ else set_field _ _ _) = Ok _ |- _ =>
      let F := fresh "F" in pose proof (has_field_default _ _ _ _ _ E) as F; clear E
  | E : (if _ then set_field _ _ _ else Ok _) = Ok _ |- _ =>
      let F := fresh "F" in pose proof (has_field_default_set _ _ _ _ _ E) as F; clear E
  end.

(** The result of [formatOpts] always has a [maxAge] key. *)
Lemma formatOpts_has_maxAge (opts0 o : jsval) :
  formatOpts opts0 = Ok o -> has_field o "maxAge" = true.
Proof.
  intros H. unfold formatOpts in H. split_obind H.
  destruct (truthy (get_field _ "genid")) eqn:G1 in H;
    [inversion H; subst | destruct (truthy (get_field _ "prefix")) in H];
    has_eqs;
    repeat match goal with
    | F : forall k', has_field ?x k' = _ |- context [has_field ?x _] => rewrite F
    end; simpl;
    destruct (has_field (if truthy opts0 then opts0 else JObj []) "maxAge");
    reflexivity.
Qed.

Lemma has_field_obj (v : jsval) (k : string) :
  has_field v k = true -> exists fs, v = JObj fs.
Proof. destruct v; simpl; try discriminate. eauto. Qed.

Lemma has_field_or_empty (v : jsval) (k : string) :
  has_field (if truthy v then v else JObj []) k = has_field v k.
Proof. destruct v; cbn; repeat case_match; reflexivity. Qed.

(* ------------------------------------------------------------------ *)
(** ** What [formatOpts] writes *)

(** [maxAge], [encode] and [decode] after [formatOpts] (lines 68, 79-84). *)
Lemma formatOpts_maxAge_codec (opts0 o : jsval) :
  formatOpts opts0 = Ok o ->
  let g := get_field opts0 in
  get_field o "maxAge" = (if has_field opts0 "maxAge" then g "maxAge" else g "maxage") /\
  get_field o "encode" = (if is_function (g "encode") then g "encode" else JFun FnUtilEncode) /\
  get_field o "decode" = (if is_function (g "decode") then g "decode" else JFun FnUtilDecode).
Proof.
  unfold formatOpts. intros H. split_obind H.
  pose proof (has_field_set _ _ _ _ E) as HA.
  field_eqs.
  destruct (truthy (get_field _ "genid")) eqn:G1 in H;
    [inversion H; subst
    | destruct (truthy (get_field _ "prefix")) in H;
      pose proof (get_field_set _ _ _ _ H) as FG];
    rewrite_fields; simpl in *; rewrite HA; simpl;
    rewrite ?has_field_or_empty, ?get_field_or_empty; repeat split;
    destruct (has_field opts0 "maxAge"), (is_function (get_field opts0 "encode")),
      (is_function (get_field opts0 "decode")); reflexivity.
Qed.


Lemma formatOpts_frame (opts0 o : jsval) (f : string) :
  formatOpts opts0 = Ok o -> ~ In f formatOpts_written ->
  get_field o f = get_field opts0 f.
Proof.
  intros H Hf.
  assert (N : forall s, In s formatOpts_written -> String.eqb f s = false).
  { intros s Hs. apply String.eqb_neq. intros ->. contradiction. }
  unfold formatOpts in H. split_obind H. field_eqs.
  destruct (truthy (get_field _ "genid")) in H;
    [inversion H; subst
    | destruct (truthy (get_field _ "prefix")) in H;
      pose proof (get_field_set _ _ _ _ H) as FG];
    repeat match goal with
    | F : forall k', get_field ?x k' = _ |- context [get_field ?x f] => rewrite (F f)
    end;
    repeat match goal with
    | |- context [String.eqb f ?s] => rewrite (N s) by (simpl; tauto)
    end; simpl; apply get_field_or_empty.
Qed.

Lemma set_assoc_same (fs : list (string * jsval)) (k : string) (v : jsval) :
  assoc k fs = Some v -> set_assoc k v fs = fs.
Proof.
  induction fs as [|[k0 v0] fs IH]; simpl; [discriminate|].
  destruct (String.eqb_spec k k0) as [->|Hne].
  - intros E. inversion E; subst. reflexivity.
  - intros E. rewrite (IH E). reflexivity.
Qed.

Lemma set_field_same (fs : list (string * jsval)) (k : string) :
  has_field (JObj fs) k = true ->
  set_field (JObj fs) k (get_field (JObj fs) k) = Ok (JObj fs).
Proof.
  simpl. destruct (assoc k fs) eqn:A; [|discriminate].
  intros _. rewrite (set_assoc_same _ _ _ A). reflexivity.
Qed.

Lemma truthy_has_field (fs : list (string * jsval)) (k : string) :
  truthy (get_field (JObj fs) k) = true -> has_field (JObj fs) k = true.
Proof. simpl. destruct (assoc k fs); [reflexivity | discriminate]. Qed.

Ltac bool_facts :=
  repeat match goal with
  | H : _ && _ = true |- _ => apply andb_prop in H; destruct H
  end.

Ltac use_checks :=
  repeat match goal with
  | H : is_function ?x = true |- context [is_function ?x] => rewrite H
  | H : is_class ?x = true |- context [is_class ?x] => rewrite H
  end.

(** An options object that already has every default and passes every
    check is returned by [formatOpts] as it is. *)
Lemma formatOpts_fixed (fs : list (string * jsval)) :
  let g := get_field (JObj fs) in
  truthy (g "key") = true ->
  has_field (JObj fs) "maxAge" = true ->
  loose_null (g "overwrite") = false ->
  loose_null (g "httpOnly") = false ->
  loose_null (g "signed") = false ->
  loose_null (g "autoCommit") = false ->
  is_function (g "encode") = true ->
  is_function (g "decode") = true ->
  store_ok (g "store") = true ->
  externalKey_ok (g "externalKey") = true ->
  ContextStore_ok (g "ContextStore") = true ->
  truthy (g "genid") = true ->
  formatOpts (JObj fs) = Ok (JObj fs).
Proof.
  intros g Hk Hm Ho Hh Hs Ha He Hd Hst Hx Hc Hg. subst g.
  unfold formatOpts. cbv beta iota zeta. change (truthy (JObj fs)) with true.
  cbv beta iota. rewrite Hk, (set_field_same _ _ (truthy_has_field _ _ Hk)).
  cbn [obind]. rewrite Hm. cbn [obind]. rewrite Ho. cbn [obind]. rewrite Hh.
  cbn [obind]. rewrite Hs. cbn [obind]. rewrite Ha. cbn [obind]. rewrite He.
  cbn [obind]. rewrite Hd. cbn [obind].
  unfold store_ok, externalKey_ok, ContextStore_ok in *.
  destruct (truthy (get_field (JObj fs) "store")); cbn [negb orb] in Hst; bool_facts;
    use_checks; cbn [js_assert obind];
  destruct (truthy (get_field (JObj fs) "externalKey")); cbn [negb orb] in Hx; bool_facts;
    use_checks; cbn [js_assert obind];
  destruct (truthy (get_field (JObj fs) "ContextStore")); cbn [negb orb] in Hc; bool_facts;
    use_checks; cbn [js_assert obind]; rewrite Hg; reflexivity.
Qed.

Lemma formatOpts_result_obj (opts0 o : jsval) :
  formatOpts opts0 = Ok o -> exists fs, o = JObj fs.
Proof. intros H. exact (has_field_obj _ _ (formatOpts_has_maxAge _ _ H)). Qed.


(* ------------------------------------------------------------------ *)
(** ** Setup on an application *)

Lemma module_exports_app (opts0 app : jsval) (h : ctx_heap) :
  has_use opts0 = false -> has_use app = true ->
  module_exports opts0 app h =
    match formatOpts opts0 with
    | Thrown e => (Thrown e, h)
    | Ok o =>
        let '(r, h') := extendContext (get_field app "context") o h in
        (match r with Ok _ => Ok o | Thrown e => Thrown e end, h')
    end.
Proof.
  intros H1 H2. unfold module_exports. rewrite H1. cbn iota beta.
  unfold has_use in H2. apply andb_prop in H2 as [-> ->]. reflexivity.
Qed.

Lemma define_prop_ok_configurable (p p' : proto_table) (k : propkey) (d : prop_def)
  (d0 : descriptor) :
  define_prop p k d = Ok p' -> lookup_prop k p = Some d0 -> desc_configurable d0 = true.
Proof.
  unfold define_prop. intros H L. rewrite L in H.
  destruct (desc_configurable d0); [reflexivity | discriminate].
Qed.

Lemma replace_prop_same (k : propkey) (d : descriptor) (p : proto_table) :
  lookup_prop k p = Some d -> replace_prop k d p = p.
Proof.
  induction p as [|[k' d'] p IH]; simpl; [discriminate|].
  destruct (decide (k = k')) as [<-|]; intros L.
  - inversion L; subst. reflexivity.
  - rewrite (IH L). reflexivity.
Qed.

(** The properties a successful [Object.defineProperties] leaves on a
    prototype that had no [CONTEXT_SESSION]: the given descriptors of
    [CONTEXT_SESSION] and [session] as they are, and under
    [sessionOptions] the new getter with an earlier (configurable)
    property's setter and configurability. *)
Lemma session_descriptors_installed (o : jsval) (p0 p1 : proto_table) :
  has_own p0 KCtxSession = false ->
  define_props p0 (session_descriptors o) = (Ok tt, p1) ->
  lookup_prop KCtxSession p1 = Some (DAccessor (Some (GCtxSession o)) None false) /\
  lookup_prop (KName "session") p1 = Some (DAccessor (Some GSession) (Some SSession) true) /\
  lookup_prop (KName "sessionOptions") p1 =
    Some (match lookup_prop (KName "sessionOptions") p0 with
          | None => DAccessor (Some GSessionOptions) None false
          | Some d0 => DAccessor (Some GSessionOptions) (desc_setter d0) true
          end).
Proof.
  intros Hk. unfold session_descriptors. simpl.
  destruct (define_prop p0 (KName "session") _) as [q1|e] eqn:D1; [|discriminate].
  destruct (define_prop q1 (KName "sessionOptions") _) as [q2|e] eqn:D2; [|discriminate].
  destruct (define_prop q2 KCtxSession _) as [q3|e] eqn:D3; [|discriminate].
  intros D. inversion D; subst. unfold has_own in Hk.
  destruct (lookup_prop KCtxSession p0) eqn:L0; [discriminate Hk|].
  split; [|split].
  - rewrite (define_prop_lookup_eq _ _ _ _ D3).
    rewrite (define_prop_lookup_ne _ _ _ _ _ D2) by discriminate.
    rewrite (define_prop_lookup_ne _ _ _ _ _ D1) by discriminate.
    rewrite L0. reflexivity.
  - rewrite (define_prop_lookup_ne _ _ _ _ _ D3) by discriminate.
    rewrite (define_prop_lookup_ne _ _ _ _ _ D2) by discriminate.
    rewrite (define_prop_lookup_eq _ _ _ _ D1).
    destruct (lookup_prop (KName "session") p0); reflexivity.
  - rewrite (define_prop_lookup_ne _ _ _ _ _ D3) by discriminate.
    rewrite (define_prop_lookup_eq _ _ _ _ D2).
    rewrite (define_prop_lookup_ne _ _ _ _ _ D1) by discriminate.
    pose proof (fun d0 => define_prop_ok_configurable _ _ _ _ d0 D2) as C.
    rewrite (define_prop_lookup_ne _ _ _ _ _ D1) in C by discriminate.
    destruct (lookup_prop (KName "sessionOptions") p0) as [d0|]; [|reflexivity].
    unfold merge_desc. simpl. rewrite (C d0 eq_refl). reflexivity.
Qed.

(** A successful setup on a prototype without the slot key. *)
Lemma setup_tables (opts0 app : jsval) (n : nat) (h h' : ctx_heap) (p0 : proto_table) (o : jsval) :
  has_use opts0 = false -> has_use app = true ->
  get_field app "context" = JCtxRef n -> h !! n = Some p0 ->
  has_own p0 KCtxSession = false ->
  module_exports opts0 app h = (Ok o, h') ->
  formatOpts opts0 = Ok o /\
  exists p1, h' = <[n := p1]> h /\
    lookup_prop KCtxSession p1 = Some (DAccessor (Some (GCtxSession o)) None false) /\
    lookup_prop (KName "session") p1 = Some (DAccessor (Some GSession) (Some SSession) true) /\
    lookup_prop (KName "sessionOptions") p1 =
      Some (match lookup_prop (KName "sessionOptions") p0 with
            | None => DAccessor (Some GSessionOptions) None false
            | Some d0 => DAccessor (Some GSessionOptions) (desc_setter d0) true
            end).
Proof.
  intros U1 U2 Hc Hn Hk H. rewrite (module_exports_app _ _ _ U1 U2), Hc in H.
  destruct (formatOpts opts0) as [o0|e] eqn:F; [|discriminate].
  unfold extendContext in H. rewrite Hn, Hk in H.
  destruct (define_props p0 (session_descriptors o0)) as [[[]|e] p1] eqn:D;
    inversion H; subst.
  split; [reflexivity|]. exists p1. split; [reflexivity|].
  exact (session_descriptors_installed _ _ _ Hk D).
Qed.

Lemma has_own_lookup (p : proto_table) (k : propkey) (d : descriptor) :
  lookup_prop k p = Some d -> has_own p k = true.
Proof. unfold has_own. intros ->. reflexivity. Qed.

(* ------------------------------------------------------------------ *)
(** ** Middleware outcomes *)

Lemma session_mw_cases (next_act : Act) (commit_act : nat -> Act) (opts : jsval)
  (c : nat) (w w' : World) (res : outcome unit) (t : list event) :
  session_mw next_act commit_act opts c w = (res, w', t) ->
  t = [] \/
  exists r w1 s, ctx_session_ref c w = (Ok r, w1, []) /\ w_objs w1 !! r = Some s /\
    (res, w', t) =
    (let w2 := if cs_store s then snd (load_external r w1) else w1 in
     let '(rn, w3) := next_act w2 in
     let '(rc, w4) := if truthy (get_field opts "autoCommit") then commit_act r w3
                      else (Ok tt, w3) in
     (match rc with Ok _ => rn | Thrown e => Thrown e end, w4,
      ((if cs_store s then [EvLoadStart; EvLoadEnd] else []) ++ [EvNextStart; EvNextEnd] ++
       (if truthy (get_field opts "autoCommit") then [EvCommitStart; EvCommitEnd] else []))%list)).
Proof.
  intros H.
  destruct (session_mw_shape next_act commit_act opts c w) as [T|(r & w1 & s & E1 & E2)].
  - left. rewrite H in T. exact T.
  - right. exists r, w1, s. split; [exact E1|]. split; [exact E2|].
    rewrite <- H. apply session_mw_eq; assumption.
Qed.

(* ------------------------------------------------------------------ *)
(** ** [formatOpts] *)

(** [formatOpts] keeps [maxAge] when the caller's object has that key,
    even with an undefined value, and otherwise copies the legacy
    [maxage] option into it (line 68). *)
Theorem formatOpts_maxAge_compat (opts0 o : jsval) :
  formatOpts opts0 = Ok o ->
  get_field o "maxAge" =
    (if has_field opts0 "maxAge" then get_field opts0 "maxAge" else get_field opts0 "maxage").
Proof. intros H. exact (proj1 (formatOpts_maxAge_codec _ _ H)). Qed.

Lemma formatOpts_maxAge_compat_witness :
  get_field (opts_of (formatOpts maxage_opts)) "maxAge" = JNum 86400000 /\
  get_field (opts_of (formatOpts explicit_maxAge_opts)) "maxAge" = JUndef.
Proof.
  split.
  - rewrite (formatOpts_maxAge_compat maxage_opts (opts_of (formatOpts maxage_opts)) eq_refl). reflexivity.
  - rewrite (formatOpts_maxAge_compat explicit_maxAge_opts
                (opts_of (formatOpts explicit_maxAge_opts)) eq_refl). reflexivity.
Defined.

(** Caller-supplied [encode]/[decode] functions are kept; anything else in
    their place is replaced by the codec of [lib/util] (lines 79-84). *)
Theorem formatOpts_codec_defaults (opts0 o : jsval) :
  formatOpts opts0 = Ok o ->
  get_field o "encode" =
    (if is_function (get_field opts0 "encode") then get_field opts0 "encode"
     else JFun FnUtilEncode) /\
  get_field o "decode" =
    (if is_function (get_field opts0 "decode") then get_field opts0 "decode"
     else JFun FnUtilDecode).
Proof. intros H. exact (proj2 (formatOpts_maxAge_codec _ _ H)). Qed.

Lemma formatOpts_codec_defaults_witness :
  get_field (opts_of (formatOpts codec_opts)) "encode" = JFun (FnUser 7) /\
  get_field (opts_of (formatOpts codec_opts)) "decode" = JFun FnUtilDecode.
Proof.
  destruct (formatOpts_codec_defaults codec_opts (opts_of (formatOpts codec_opts)) eq_refl) as [E D].
  rewrite E, D. split; reflexivity.
Defined.

(** [formatOpts] writes only [key], [maxAge], [overwrite], [httpOnly],
    [signed], [autoCommit], [encode], [decode] and [genid]: every other
    option (cookie options, [store], [prefix], ...) reads as the caller
    gave it. *)
Theorem formatOpts_keeps_other_fields (opts0 o : jsval) (f : string) :
  formatOpts opts0 = Ok o -> ~ In f formatOpts_written ->
  get_field o f = get_field opts0 f.
Proof. exact (formatOpts_frame opts0 o f). Qed.

Lemma formatOpts_keeps_other_fields_witness :
  get_field (opts_of (formatOpts domain_opts)) "domain" = JStr "example.com".
Proof.
  apply (formatOpts_keeps_other_fields domain_opts (opts_of (formatOpts domain_opts))
           "domain" eq_refl).
  simpl. intuition discriminate.
Defined.

(** Formatting the options [formatOpts] returned gives them back
    unchanged: a second setup with the already formatted object (which the
    code mutates in place) changes no option. *)
Theorem formatOpts_idempotent (opts0 o : jsval) :
  formatOpts opts0 = Ok o -> formatOpts o = Ok o.
Proof.
  intros H.
  destruct (formatOpts_result_obj _ _ H) as [fs ->].
  pose proof (formatOpts_fields _ _ H) as FF. cbv zeta in FF.
  destruct FF as (Fk & Fo & Fh & Fs & Fa & _ & Fst & Fx & Fc & Fg).
  destruct (formatOpts_maxAge_codec _ _ H) as (_ & Fe & Fd).
  destruct (formatOpts_checks _ _ H) as (Cs & Cx & Cc).
  apply formatOpts_fixed.
  - rewrite Fk. destruct (truthy (get_field opts0 "key")) eqn:E; [exact E | reflexivity].
  - exact (formatOpts_has_maxAge _ _ H).
  - rewrite Fo. destruct (loose_null (get_field opts0 "overwrite")) eqn:E; [reflexivity | exact E].
  - rewrite Fh. destruct (loose_null (get_field opts0 "httpOnly")) eqn:E; [reflexivity | exact E].
  - rewrite Fs. destruct (loose_null (get_field opts0 "signed")) eqn:E; [reflexivity | exact E].
  - rewrite Fa. destruct (loose_null (get_field opts0 "autoCommit")) eqn:E; [reflexivity | exact E].
  - rewrite Fe. destruct (is_function (get_field opts0 "encode")) eqn:E; [exact E | reflexivity].
  - rewrite Fd. destruct (is_function (get_field opts0 "decode")) eqn:E; [exact E | reflexivity].
  - rewrite Fst. exact Cs.
  - rewrite Fx. exact Cx.
  - rewrite Fc. exact Cc.
  - rewrite Fg. destruct (truthy (get_field opts0 "genid")) eqn:E; [exact E|].
    destruct (truthy (get_field opts0 "prefix")); reflexivity.
Qed.

Lemma formatOpts_idempotent_witness :
  let o := opts_of (formatOpts prefix_opts) in formatOpts o = Ok o.
Proof. intros o. exact (formatOpts_idempotent prefix_opts o eq_refl). Defined.

(** A truthy primitive passed as the options (a string, a number, [true])
    makes the strict-mode write [opts.key = ...] throw a [TypeError], so
    the setup throws it and installs nothing. *)
Theorem formatOpts_primitive_throws (opts0 : jsval) :
  is_primitive opts0 = true -> truthy opts0 = true ->
  formatOpts opts0 = Thrown (TypeError "Cannot create property on primitive") /\
  (forall (app : jsval) (h : ctx_heap), has_use app = true ->
     module_exports opts0 app h = (Thrown (TypeError "Cannot create property on primitive"), h)).
Proof.
  intros P T.
  assert (F : formatOpts opts0 = Thrown (TypeError "Cannot create property on primitive")).
  { unfold formatOpts. rewrite T. destruct opts0; simpl in P; try discriminate; reflexivity. }
  split; [exact F|]. intros app h U.
  assert (U0 : has_use opts0 = false) by (destruct opts0; try discriminate; unfold has_use; simpl;
     rewrite ?andb_false_r; reflexivity).
  rewrite (module_exports_app _ _ _ U0 U), F. reflexivity.
Qed.

Lemma formatOpts_primitive_throws_witness :
  module_exports (JStr "koa:sess") example_app example_heap =
    (Thrown (TypeError "Cannot create property on primitive"), example_heap).
Proof.
  destruct (formatOpts_primitive_throws (JStr "koa:sess") eq_refl eq_refl) as [_ G].
  apply G. reflexivity.
Defined.

(* ------------------------------------------------------------------ *)
(** ** Setup *)

(** A successful setup on a context prototype without the slot key
    returns the formatted options and changes that prototype only: it
    gets the slot getter closing over those options and a configurable
    [session] accessor with getter and setter; [sessionOptions] gets the
    library's getter, with no setter and not configurable when the
    prototype had no such property, and otherwise keeping the earlier
    property's setter and staying configurable (the descriptor omits
    both attributes). *)
Theorem setup_installs_descriptors (opts0 app : jsval) (n : nat) (h h' : ctx_heap)
  (p0 : proto_table) (o : jsval) :
  has_use opts0 = false -> has_use app = true ->
  get_field app "context" = JCtxRef n -> h !! n = Some p0 ->
  has_own p0 KCtxSession = false ->
  module_exports opts0 app h = (Ok o, h') ->
  formatOpts opts0 = Ok o /\
  exists p1, h' = <[n := p1]> h /\
    lookup_prop KCtxSession p1 = Some (DAccessor (Some (GCtxSession o)) None false) /\
    lookup_prop (KName "session") p1 = Some (DAccessor (Some GSession) (Some SSession) true) /\
    lookup_prop (KName "sessionOptions") p1 =
      Some (match lookup_prop (KName "sessionOptions") p0 with
            | None => DAccessor (Some GSessionOptions) None false
            | Some d0 => DAccessor (Some GSessionOptions) (desc_setter d0) true
            end).
Proof. exact (setup_tables opts0 app n h h' p0 o). Qed.

Lemma setup_installs_descriptors_witness :
  exists p1, snd (module_exports JUndef example_app example_heap) = <[0 := p1]> example_heap /\
    lookup_prop KCtxSession p1 =
      Some (DAccessor (Some (GCtxSession (opts_of (formatOpts JUndef)))) None false) /\
    lookup_prop (KName "session") p1 = Some (DAccessor (Some GSession) (Some SSession) true) /\
    lookup_prop (KName "sessionOptions") p1 = Some (DAccessor (Some GSessionOptions) None false).
Proof.
  destruct (module_exports JUndef example_app example_heap) as [r h'] eqn:E.
  assert (R : r = Ok (opts_of (formatOpts JUndef))) by (vm_compute in E; inversion E; reflexivity).
  subst r.
  destruct (setup_installs_descriptors JUndef example_app 0 example_heap h' [] _
              eq_refl eq_refl eq_refl eq_refl eq_refl E) as [_ P].
  exact P.
Defined.

(** Setting up the same application a second time changes no prototype:
    the second call still formats (and may reject) its own options, but
    the contexts keep the slot getter of the first call, so their
    [ContextSession] objects and [ctx.sessionOptions] use the first
    options. *)
Theorem setup_twice_keeps_first_options (opts1 opts2 app : jsval) (n : nat)
  (h h1 h2 : ctx_heap) (p0 : proto_table) (o1 : jsval) (r2 : outcome jsval) :
  has_use opts1 = false -> has_use opts2 = false -> has_use app = true ->
  get_field app "context" = JCtxRef n -> h !! n = Some p0 ->
  has_own p0 KCtxSession = false ->
  module_exports opts1 app h = (Ok o1, h1) ->
  module_exports opts2 app h1 = (r2, h2) ->
  r2 = formatOpts opts2 /\ h2 = h1 /\
  exists p1, h2 !! n = Some p1 /\
    lookup_prop KCtxSession p1 = Some (DAccessor (Some (GCtxSession o1)) None false).
Proof.
  intros U1 U2 U Hc Hn Hk M1 M2.
  destruct (setup_tables _ _ _ _ _ _ _ U1 U Hc Hn Hk M1) as [_ (p1 & -> & L1 & _)].
  rewrite (module_exports_app _ _ _ U2 U), Hc in M2.
  unfold extendContext in M2. rewrite lookup_insert_eq, (has_own_lookup _ _ _ L1) in M2.
  destruct (formatOpts opts2); inversion M2; subst;
    (split; [reflexivity|]; split; [reflexivity|]; exists p1;
     split; [apply lookup_insert_eq | exact L1]).
Qed.

Lemma setup_twice_keeps_first_options_witness :
  let h1 := snd (module_exports JUndef example_app example_heap) in
  exists p1, snd (module_exports other_key_opts example_app h1) !! 0 = Some p1 /\
    lookup_prop KCtxSession p1 =
      Some (DAccessor (Some (GCtxSession (opts_of (formatOpts JUndef)))) None false).
Proof.
  intros h1.
  destruct (module_exports other_key_opts example_app h1) as [r2 h2] eqn:E2.
  assert (E1 : module_exports JUndef example_app example_heap =
               (Ok (opts_of (formatOpts JUndef)), h1)) by (vm_compute; reflexivity).
  destruct (setup_twice_keeps_first_options JUndef other_key_opts example_app 0
              example_heap h1 h2 [] _ r2 eq_refl eq_refl eq_refl eq_refl eq_refl eq_refl E1 E2)
    as (_ & _ & P).
  exact P.
Defined.

(** When the prototype already has a non-configurable [sessionOptions]
    (and no non-configurable [session]), [Object.defineProperties] defines
    [session] and then throws at [sessionOptions], before it reaches the
    symbol [CONTEXT_SESSION]: the setup throws a [TypeError], leaving the
    library's [session] accessor, the old [sessionOptions] and no slot
    getter; setting up again throws the same way and changes nothing. *)
Theorem setup_blocked_by_sessionOptions (opts0 app : jsval) (n : nat) (h : ctx_heap)
  (p0 : proto_table) (o : jsval) (d0 : descriptor) :
  has_use opts0 = false -> has_use app = true ->
  get_field app "context" = JCtxRef n -> h !! n = Some p0 ->
  has_own p0 KCtxSession = false ->
  (forall d, lookup_prop (KName "session") p0 = Some d -> desc_configurable d = true) ->
  lookup_prop (KName "sessionOptions") p0 = Some d0 -> desc_configurable d0 = false ->
  formatOpts opts0 = Ok o ->
  exists h1,
    module_exports opts0 app h = (Thrown (TypeError "Cannot redefine property"), h1) /\
    (exists p1, h1 !! n = Some p1 /\
       has_own p1 KCtxSession = false /\
       lookup_prop (KName "session") p1 =
         Some (DAccessor (Some GSession) (Some SSession) true) /\
       lookup_prop (KName "sessionOptions") p1 = Some d0) /\
    module_exports opts0 app h1 = (Thrown (TypeError "Cannot redefine property"), h1).
Proof.
  intros U1 U Hc Hn Hk Hs Ho Hoc F.
  set (dS := {| pd_get := GSession; pd_set := Some SSession; pd_configurable := Some true |}).
  set (dO := {| pd_get := GSessionOptions; pd_set := None; pd_configurable := None |}).
  set (dC := {| pd_get := GCtxSession o; pd_set := None; pd_configurable := None |}).
  set (aS := DAccessor (Some GSession) (Some SSession) true).
  (* [session] is defined on any prototype meeting the hypotheses *)
  assert (D1 : forall p, (forall d, lookup_prop (KName "session") p = Some d ->
                                    desc_configurable d = true) ->
               exists q, define_prop p (KName "session") dS = Ok q /\
                 lookup_prop (KName "session") q = Some aS /\
                 (forall k, k <> KName "session" -> lookup_prop k q = lookup_prop k p)).
  { intros p Hp.
    assert (E : exists q, define_prop p (KName "session") dS = Ok q).
    { unfold define_prop. destruct (lookup_prop (KName "session") p) as [d|] eqn:L;
        [rewrite (Hp d eq_refl)|]; eauto. }
    destruct E as [q E]. exists q. split; [exact E|]. split.
    - rewrite (define_prop_lookup_eq _ _ _ _ E).
      destruct (lookup_prop (KName "session") p); reflexivity.
    - intros k Hne. exact (define_prop_lookup_ne _ _ _ _ _ E Hne). }
  destruct (D1 p0 Hs) as (q1 & E1 & LS & LN).
  assert (E2 : define_prop q1 (KName "sessionOptions") dO =
               Thrown (TypeError "Cannot redefine property")).
  { unfold define_prop. rewrite (LN (KName "sessionOptions") ltac:(discriminate)), Ho, Hoc. reflexivity. }
  assert (K1 : has_own q1 KCtxSession = false).
  { unfold has_own. rewrite (LN KCtxSession ltac:(discriminate)). exact Hk. }
  assert (O1 : lookup_prop (KName "sessionOptions") q1 = Some d0).
  { rewrite (LN (KName "sessionOptions") ltac:(discriminate)). exact Ho. }
  assert (Setup : forall h0 p, h0 !! n = Some p ->
            has_own p KCtxSession = false ->
            define_prop p (KName "session") dS = Ok q1 ->
            module_exports opts0 app h0 =
              (Thrown (TypeError "Cannot redefine property"), <[n := q1]> h0)).
  { intros h0 p Hn0 Hk0 Ep.
    rewrite (module_exports_app _ _ _ U1 U), F, Hc. unfold extendContext.
    rewrite Hn0, Hk0. unfold session_descriptors. simpl.
    fold dS dO dC. rewrite Ep, E2. reflexivity. }
  exists (<[n := q1]> h). split; [|split].
  - exact (Setup h p0 Hn Hk E1).
  - exists q1. split; [apply lookup_insert_eq|]. auto.
  - rewrite (Setup (<[n := q1]> h) q1 (lookup_insert_eq _ _ _) K1).
    + rewrite insert_insert_eq. reflexivity.
    + unfold define_prop. rewrite LS. simpl.
      unfold merge_desc. simpl. rewrite replace_prop_same; [reflexivity|exact LS].
Qed.

Lemma setup_blocked_by_sessionOptions_witness :
  exists h1,
    module_exports JUndef example_app foreign_heap =
      (Thrown (TypeError "Cannot redefine property"), h1) /\
    (exists p1, h1 !! 0 = Some p1 /\
       has_own p1 KCtxSession = false /\
       lookup_prop (KName "session") p1 =
         Some (DAccessor (Some GSession) (Some SSession) true) /\
       lookup_prop (KName "sessionOptions") p1 = Some (DData (JStr "theirs") false)) /\
    module_exports JUndef example_app h1 = (Thrown (TypeError "Cannot redefine property"), h1).
Proof.
  apply (setup_blocked_by_sessionOptions JUndef example_app 0 foreign_heap
           [(KName "sessionOptions", DData (JStr "theirs") false)] (opts_of (formatOpts JUndef)) _
           eq_refl eq_refl eq_refl eq_refl eq_refl).
  - intros d L. discriminate L.
  - reflexivity.
  - reflexivity.
  - reflexivity.
Defined.

(** An application without a context prototype ([app.context] undefined or
    null) makes the setup throw: the [TypeError] of
    [context.hasOwnProperty], or the options' error if [formatOpts] throws
    first; the prototypes are left as they were. *)
Theorem setup_requires_context (opts0 app : jsval) (h : ctx_heap) :
  has_use opts0 = false -> has_use app = true ->
  loose_null (get_field app "context") = true ->
  module_exports opts0 app h =
    (match formatOpts opts0 with
     | Ok _ => Thrown (TypeError "Cannot read properties of undefined")
     | Thrown e => Thrown e
     end, h).
Proof.
  intros U1 U L. rewrite (module_exports_app _ _ _ U1 U).
  destruct (formatOpts opts0); [|reflexivity].
  destruct (get_field app "context"); simpl in L; try discriminate L; reflexivity.
Qed.

Lemma setup_requires_context_witness :
  module_exports JUndef app_without_context example_heap =
    (Thrown (TypeError "Cannot read properties of undefined"), example_heap).
Proof. apply (setup_requires_context JUndef app_without_context example_heap); reflexivity. Defined.

(* ------------------------------------------------------------------ *)
(** ** Middleware *)

(** With [autoCommit] off the middleware adds nothing after the handler
    chain: the catch only rethrows and the finally block is empty, so the
    caller gets exactly the chain's outcome, its error included, and the
    world the chain left. *)
Theorem session_mw_manual_passthrough (next_act : Act) (commit_act : nat -> Act)
  (opts : jsval) (c : nat) (w w' : World) (res : outcome unit) (t : list event) :
  truthy (get_field opts "autoCommit") = false ->
  session_mw next_act commit_act opts c w = (res, w', t) ->
  In EvNextStart t ->
  ~ In EvCommitStart t /\ exists w2, next_act w2 = (res, w').
Proof.
  intros A H I.
  destruct (session_mw_cases _ _ _ _ _ _ _ _ H) as [->|(r & w1 & s & E1 & E2 & Eq)];
    [destruct I|].
  rewrite A in Eq. cbv zeta in Eq.
  destruct (next_act _) as [rn w3] eqn:N in Eq. inversion Eq; subst.
  split.
  - destruct (cs_store s); simpl; intuition discriminate.
  - eexists. exact N.
Qed.

Lemma session_mw_manual_passthrough_witness :
  let '(res, _, t) := session_mw (failing_act 3) idle_commit manual_opts 1
                        (example_world manual_opts) in
  ~ In EvCommitStart t /\ res = Thrown (ErrOf 3).
Proof.
  destruct (session_mw (failing_act 3) idle_commit manual_opts 1 (example_world manual_opts))
    as [[res w'] t] eqn:E.
  assert (I : In EvNextStart t) by (vm_compute in E; inversion E; simpl; auto).
  destruct (session_mw_manual_passthrough (failing_act 3) idle_commit manual_opts 1
              (example_world manual_opts) w' res t eq_refl E I) as [NC [w2 N]].
  split; [exact NC|]. unfold failing_act in N. inversion N. reflexivity.
Defined.

(** On a context whose prototype has no slot getter (the app was not set
    up, or another app's middleware is used), the middleware throws a
    [TypeError] at once: it loads nothing, runs no handler, commits
    nothing and changes nothing. *)
Theorem session_mw_uninstalled (next_act : Act) (commit_act : nat -> Act)
  (opts : jsval) (c : nat) (w : World) :
  proto_desc w c KCtxSession = None ->
  session_mw next_act commit_act opts c w =
    (Thrown (TypeError "Cannot read properties of undefined"), w, []).
Proof. intros H. unfold session_mw, bind, ctx_session_ref. rewrite H. reflexivity. Qed.

Lemma session_mw_uninstalled_witness :
  session_mw (failing_act 1) (fun _ => failing_act 2) example_opts 1 bare_world =
    (Thrown (TypeError "Cannot read properties of undefined"), bare_world, []).
Proof. apply session_mw_uninstalled. reflexivity. Defined.

(** The commit the middleware starts is that of the request's own
    [ContextSession]: the object held in the context's slot, whose context
    is the request's context. *)
Theorem session_mw_commits_own_session (next_act : Act) (commit_act : nat -> Act)
  (opts : jsval) (c : nat) (w w' : World) (res : outcome unit) (t : list event) :
  cs_inv w ->
  session_mw next_act commit_act opts c w = (res, w', t) ->
  In EvCommitStart t ->
  exists r w1 s w3 rc,
    ctx_session_ref c w = (Ok r, w1, []) /\
    (exists cx, w_ctxs w1 !! c = Some cx /\ cx_slot cx = Some r) /\
    w_objs w1 !! r = Some s /\ cs_ctx s = c /\
    commit_act r w3 = (rc, w').
Proof.
  intros Inv H I.
  destruct (session_mw_cases _ _ _ _ _ _ _ _ H) as [->|(r & w1 & s & E1 & E2 & Eq)];
    [destruct I|].
  destruct (truthy (get_field opts "autoCommit")) eqn:A; cbv zeta in Eq.
  - destruct (next_act _) as [rn w3] eqn:N in Eq.
    destruct (commit_act r w3) as [rc w4] eqn:C in Eq. inversion Eq; subst.
    destruct (ctx_session_ref_slot _ _ _ _ _ E1) as (cx & Hc & Hs).
    pose proof (proj1 (good_ctx_session_ref c w Inv)) as Inv1.
    rewrite E1 in Inv1. simpl in Inv1. destruct Inv1 as (_ & I2 & _).
    destruct (I2 c cx r Hc Hs) as (s' & Es & Cs). rewrite E2 in Es. inversion Es; subst.
    exists r, w1, s', w3, rc. split; [exact E1|]. split; [eauto|].
    split; [exact E2|]. split; [reflexivity | exact C].
  - destruct (next_act _) as [rn w3] eqn:N in Eq. inversion Eq; subst.
    exfalso. destruct (cs_store s); simpl in I; intuition discriminate.
Qed.

Lemma session_mw_commits_own_session_witness :
  let w := example_world example_opts in
  let '(res, w', t) := session_mw idle_act idle_commit example_opts 1 w in
  In EvCommitStart t /\
  exists r w1 s w3 rc,
    ctx_session_ref 1 w = (Ok r, w1, []) /\
    (exists cx, w_ctxs w1 !! 1 = Some cx /\ cx_slot cx = Some r) /\
    w_objs w1 !! r = Some s /\ cs_ctx s = 1 /\ idle_commit r w3 = (rc, w').
Proof.
  intros w.
  destruct (session_mw idle_act idle_commit example_opts 1 w) as [[res w'] t] eqn:E.
  assert (I : In EvCommitStart t) by (vm_compute in E; inversion E; simpl; auto 10).
  assert (Inv : cs_inv w).
  { apply cs_inv_init; [reflexivity|]. apply map_Forall_singleton. reflexivity. }
  split; [exact I|].
  exact (session_mw_commits_own_session idle_act idle_commit example_opts 1 w w' res t Inv E I).
Defined.
